(** * Conversation state engine of the chat client

    A shallow embedding of the Redux slice [chatSlice] (sessions, messages,
    tags), of the send procedure of [ChatApp], of the typing hook [useTyping]
    together with the image-reveal callback of [ImageMessage], and of the
    debounced scroller [useAutoScroll].

    Conventions of the embedding.
    - An optional boolean field ([loading?], [new?], [typed?], [animated?])
      is an [option bool]; [None] is JavaScript's [undefined].
    - [nanoid()] and [Date.now()] are inputs of the environment: every action
      carries the identifier and the timestamps the reducer would draw.
    - A reducer written against an Immer draft mutates the first session that
      [Array.prototype.find] returns; [with_session] does the same on a list.
    - Times of the animation clock and [Math.random()] are rationals; the
      characters of a message are those of a [string].
    - A session and a message both have a field [id] in the source; they are
      [s_id] and [m_id] here, and [createdAt] of a message is [m_createdAt]. *)

From Stdlib Require Import List String Ascii Bool Arith ZArith QArith Lia Lqa
  Qround Permutation.
Import ListNotations.
Local Close Scope Q_scope.
Local Open Scope string_scope.
Local Open Scope list_scope.

(** ** Truthiness of the JavaScript values that occur in conditions *)

Definition truthy (b : option bool) : bool :=
  match b with Some true => true | _ => false end.

Definition truthy_str (s : string) : bool := negb (s =? "").

Definition truthy_id (o : option string) : bool :=
  match o with Some s => truthy_str s | None => false end.

(** ** The store: [chatSlice] *)

Module Store.

Inductive Role := user | model.

Record ChatImage := mkImage { path : string; data : string }.

Record ChatMessage := mkMessage {
  m_id : string;
  role : Role;
  content : string;
  images : list ChatImage;
  animated : option bool;
  typed : option bool;
  m_createdAt : Z }.

Record Session := mkSession {
  s_id : string;
  title : string;
  prev_context : string;
  was_context_valid_old : bool;
  is_follow_up_old : bool;
  related_images : list string;
  messages : list ChatMessage;
  createdAt : Z;
  updatedAt : Z;
  loading : option bool;
  new : option bool }.

Record ChatState := mkState {
  sessions : list Session;
  activeSessionId : option string }.

Definition DEFAULT_GREETING : string :=
  "Hello! I'm ready to help. Ask me anything to start this chat.".

Definition initialState : ChatState :=
  {| sessions := []; activeSessionId := None |}.

(** [createNewSession(title)], with [nid] the value of [nanoid()] and [now]
    the value of [Date.now()]. *)
Definition createNewSession (title : option string) (nid : string) (now : Z)
  : Session :=
  {| s_id := nid;
     title := match title with Some t => t | None => "New Chat" end;
     prev_context := DEFAULT_GREETING;
     was_context_valid_old := true;
     is_follow_up_old := true;
     related_images := [];
     messages := [];
     createdAt := now;
     updatedAt := now;
     loading := None;
     new := Some true |}.

(** Field updates of a draft session or message. *)
Definition set_messages (ms : list ChatMessage) (s : Session) : Session :=
  mkSession (s_id s) (title s) (prev_context s) (was_context_valid_old s)
    (is_follow_up_old s) (related_images s) ms (createdAt s) (updatedAt s)
    (loading s) (new s).

Definition set_updatedAt (t : Z) (s : Session) : Session :=
  mkSession (s_id s) (title s) (prev_context s) (was_context_valid_old s)
    (is_follow_up_old s) (related_images s) (messages s) (createdAt s) t
    (loading s) (new s).

Definition set_related_images (r : list string) (s : Session) : Session :=
  mkSession (s_id s) (title s) (prev_context s) (was_context_valid_old s)
    (is_follow_up_old s) r (messages s) (createdAt s) (updatedAt s)
    (loading s) (new s).

Definition set_loading (b : option bool) (s : Session) : Session :=
  mkSession (s_id s) (title s) (prev_context s) (was_context_valid_old s)
    (is_follow_up_old s) (related_images s) (messages s) (createdAt s)
    (updatedAt s) b (new s).

Definition set_new (b : option bool) (s : Session) : Session :=
  mkSession (s_id s) (title s) (prev_context s) (was_context_valid_old s)
    (is_follow_up_old s) (related_images s) (messages s) (createdAt s)
    (updatedAt s) (loading s) b.

Definition set_title (t : string) (s : Session) : Session :=
  mkSession (s_id s) t (prev_context s) (was_context_valid_old s)
    (is_follow_up_old s) (related_images s) (messages s) (createdAt s)
    (updatedAt s) (loading s) (new s).

Definition set_prev_context (c : string) (s : Session) : Session :=
  mkSession (s_id s) (title s) c (was_context_valid_old s)
    (is_follow_up_old s) (related_images s) (messages s) (createdAt s)
    (updatedAt s) (loading s) (new s).

Definition set_was_context_valid_old (b : bool) (s : Session) : Session :=
  mkSession (s_id s) (title s) (prev_context s) b
    (is_follow_up_old s) (related_images s) (messages s) (createdAt s)
    (updatedAt s) (loading s) (new s).

Definition set_is_follow_up_old (b : bool) (s : Session) : Session :=
  mkSession (s_id s) (title s) (prev_context s) (was_context_valid_old s)
    b (related_images s) (messages s) (createdAt s)
    (updatedAt s) (loading s) (new s).

Definition set_typed (b : option bool) (m : ChatMessage) : ChatMessage :=
  mkMessage (m_id m) (role m) (content m) (images m) (animated m) b
    (m_createdAt m).

Definition set_animated (b : option bool) (m : ChatMessage) : ChatMessage :=
  mkMessage (m_id m) (role m) (content m) (images m) b (typed m)
    (m_createdAt m).

(** [x => x.id === sid] on sessions and on messages. *)
Definition has_id (sid : string) (s : Session) : bool := s_id s =? sid.
Definition msg_has_id (mid : string) (m : ChatMessage) : bool := m_id m =? mid.

(** In-place mutation of the element that [find] returns: the first one that
    satisfies [p]; nothing happens when there is none. *)
Fixpoint update_first {A : Type} (p : A -> bool) (f : A -> A) (l : list A)
  : list A :=
  match l with
  | [] => []
  | x :: r => if p x then f x :: r else x :: update_first p f r
  end.

(** [const s = state.sessions.find(x => x.id === sid); if (!s) return; f(s)]. *)
Definition with_session (st : ChatState) (sid : string)
    (f : Session -> Session) : ChatState :=
  match find (has_id sid) (sessions st) with
  | None => st
  | Some _ =>
      {| sessions := update_first (has_id sid) f (sessions st);
         activeSessionId := activeSessionId st |}
  end.

(** [arr.indexOf(x)] followed by [arr.splice(idx, 1)]: the first occurrence
    is removed. *)
Fixpoint remove_first (x : string) (l : list string) : list string :=
  match l with
  | [] => []
  | y :: r => if y =? x then r else y :: remove_first x r
  end.

Definition mem (x : string) (l : list string) : bool :=
  existsb (fun y => y =? x) l.

(** *** The reducers *)

Definition bootstrapFirstSession (st : ChatState) (nid : string) (now : Z)
  : ChatState :=
  if negb (truthy_id (activeSessionId st))
     && (List.length (sessions st) =? 0)%nat
  then
    let s := createNewSession (Some "First Chat") nid now in
    {| sessions := sessions st ++ [s]; activeSessionId := Some (s_id s) |}
  else st.

Definition addSession (st : ChatState) (title : option string)
    (nid : string) (now : Z) : ChatState :=
  let s := createNewSession title nid now in
  {| sessions := s :: sessions st; activeSessionId := Some (s_id s) |}.

Definition switchSession (st : ChatState) (id : string) : ChatState :=
  match find (has_id id) (sessions st) with
  | Some _ => {| sessions := sessions st; activeSessionId := Some id |}
  | None => st
  end.

Definition removeSession (st : ChatState) (id : string) : ChatState :=
  let rest := filter (fun s => negb (s_id s =? id)) (sessions st) in
  {| sessions := rest;
     activeSessionId :=
       match activeSessionId st with
       | Some a =>
           if a =? id
           then match rest with s :: _ => Some (s_id s) | [] => None end
           else Some a
       | None => None
       end |}.

Definition addUserMessage (st : ChatState) (sessionId content : string)
    (imgs : option (list ChatImage)) (nid : string) (t_msg t_upd : Z)
  : ChatState :=
  with_session st sessionId (fun s =>
    let msg := {| m_id := nid; role := user; content := content;
                  images := match imgs with Some l => l | None => [] end;
                  animated := Some false; typed := None;
                  m_createdAt := t_msg |} in
    set_updatedAt t_upd (set_messages (messages s ++ [msg]) s)).

Definition addModelMessage (st : ChatState) (sessionId content : string)
    (imgs : option (list ChatImage)) (typed_ : option bool) (nid : string)
    (t_msg t_upd : Z) : ChatState :=
  with_session st sessionId (fun s =>
    let msg := {| m_id := nid; role := model; content := content;
                  images := match imgs with Some l => l | None => [] end;
                  animated := None; typed := typed_;
                  m_createdAt := t_msg |} in
    set_updatedAt t_upd (set_messages (messages s ++ [msg]) s)).

Definition opt_apply {A B : Type} (o : option A) (f : A -> B -> B) (b : B) : B :=
  match o with Some a => f a b | None => b end.

Definition setSessionMeta (st : ChatState) (sessionId : string)
    (prev_context_ : option string) (was_context_valid_old_ : option bool)
    (is_follow_up_old_ : option bool) (related_images_ : option (list string))
    (title_ : option string) (now : Z) : ChatState :=
  with_session st sessionId (fun s =>
    set_updatedAt now
      (opt_apply title_ set_title
        (opt_apply related_images_ set_related_images
          (opt_apply is_follow_up_old_ set_is_follow_up_old
            (opt_apply was_context_valid_old_ set_was_context_valid_old
              (opt_apply prev_context_ set_prev_context s)))))).

Definition setSessionStatus (st : ChatState) (id : string) (now : Z)
  : ChatState :=
  with_session st id (fun s => set_updatedAt now (set_new (Some false) s)).

Definition toggle (x : string) (l : list string) : list string :=
  if mem x l then remove_first x l else l ++ [x].

Definition toggleTaggedImage (st : ChatState) (sessionId path_ : string)
    (now : Z) : ChatState :=
  with_session st sessionId (fun s =>
    set_updatedAt now (set_related_images (toggle path_ (related_images s)) s)).

Definition clearTaggedImages (st : ChatState) (sessionId : string) (now : Z)
  : ChatState :=
  with_session st sessionId (fun s =>
    set_updatedAt now (set_related_images [] s)).

Definition setSessionLoading (st : ChatState) (sessionId : string)
    (loading_ : bool) (now : Z) : ChatState :=
  with_session st sessionId (fun s =>
    set_updatedAt now (set_loading (Some loading_) s)).

Definition markMessageTyped (st : ChatState) (sessionId messageId : string)
  : ChatState :=
  with_session st sessionId (fun s =>
    set_loading (Some false)
      (set_messages
         (update_first (msg_has_id messageId) (set_typed (Some true))
            (messages s)) s)).

Definition markMessageAnimated (st : ChatState) (sessionId messageId : string)
  : ChatState :=
  with_session st sessionId (fun s =>
    set_messages
      (update_first (msg_has_id messageId) (set_animated (Some true))
         (messages s)) s).

(** *** Actions, as dispatched to the slice *)

Inductive Action :=
| BootstrapFirstSession (nid : string) (now : Z)
| AddSession (title : option string) (nid : string) (now : Z)
| SwitchSession (id : string)
| RemoveSession (id : string)
| AddUserMessage (sessionId content : string)
    (imgs : option (list ChatImage)) (nid : string) (t_msg t_upd : Z)
| AddModelMessage (sessionId content : string)
    (imgs : option (list ChatImage)) (typed_ : option bool) (nid : string)
    (t_msg t_upd : Z)
| SetSessionMeta (sessionId : string) (prev_context_ : option string)
    (was_context_valid_old_ is_follow_up_old_ : option bool)
    (related_images_ : option (list string)) (title_ : option string)
    (now : Z)
| SetSessionStatus (id : string) (now : Z)
| ToggleTaggedImage (sessionId path_ : string) (now : Z)
| ClearTaggedImages (sessionId : string) (now : Z)
| SetSessionLoading (sessionId : string) (loading_ : bool) (now : Z)
| MarkMessageTyped (sessionId messageId : string)
| MarkMessageAnimated (sessionId messageId : string).

Definition reducer (st : ChatState) (a : Action) : ChatState :=
  match a with
  | BootstrapFirstSession nid now => bootstrapFirstSession st nid now
  | AddSession t nid now => addSession st t nid now
  | SwitchSession id => switchSession st id
  | RemoveSession id => removeSession st id
  | AddUserMessage sid c imgs nid t1 t2 => addUserMessage st sid c imgs nid t1 t2
  | AddModelMessage sid c imgs ty nid t1 t2 =>
      addModelMessage st sid c imgs ty nid t1 t2
  | SetSessionMeta sid pc wv fu ri ti now =>
      setSessionMeta st sid pc wv fu ri ti now
  | SetSessionStatus id now => setSessionStatus st id now
  | ToggleTaggedImage sid p now => toggleTaggedImage st sid p now
  | ClearTaggedImages sid now => clearTaggedImages st sid now
  | SetSessionLoading sid b now => setSessionLoading st sid b now
  | MarkMessageTyped sid mid => markMessageTyped st sid mid
  | MarkMessageAnimated sid mid => markMessageAnimated st sid mid
  end.

(** The session id an action is addressed to, when it has one. *)
Definition target (a : Action) : option string :=
  match a with
  | BootstrapFirstSession _ _ | AddSession _ _ _ => None
  | SwitchSession id | RemoveSession id | SetSessionStatus id _ => Some id
  | AddUserMessage sid _ _ _ _ _ | AddModelMessage sid _ _ _ _ _ _
  | SetSessionMeta sid _ _ _ _ _ _ | ToggleTaggedImage sid _ _
  | ClearTaggedImages sid _ | SetSessionLoading sid _ _
  | MarkMessageTyped sid _ | MarkMessageAnimated sid _ => Some sid
  end.

Definition run (st : ChatState) (l : list Action) : ChatState :=
  fold_left reducer l st.

End Store.

(** ** Sending a message: [sendMessage] of [ChatApp] *)

Module ChatApp.
Import Store.

Record HistoryItem := mkHistoryItem { h_role : Role; h_content : string }.

(** The body of the POST request. *)
Record Payload := mkPayload {
  p_prev_context : string;
  message_history : list HistoryItem;
  query : string;
  p_was_context_valid_old : bool;
  p_is_follow_up_old : bool;
  p_related_images : list string }.

(** What [nanoid()] and [Date.now()] return during the three dispatches of
    one send. *)
Record SendEnv := mkSendEnv {
  t_loading : Z;
  t_clear : Z;
  user_msg_id : string;
  t_user_msg : Z;
  t_user_upd : Z }.

(** The callback mapped over [session.related_images]: the loop over the
    messages returns at the first message that holds an image with that
    path; the fallback is the image with empty path and data. *)
Fixpoint resolve_image (ms : list ChatMessage) (p : string) : ChatImage :=
  match ms with
  | [] => {| path := ""; data := "" |}
  | m :: rest =>
      if (0 <? List.length (images m))%nat then
        match find (fun img => path img =? p) (images m) with
        | Some found => {| path := path found; data := data found |}
        | None => resolve_image rest p
        end
      else resolve_image rest p
  end.

Definition userImages (session : Session) : list ChatImage :=
  if (0 <? List.length (related_images session))%nat then
    map (fun it => {| path := path it; data := data it |})
      (filter (fun it => truthy_str (path it))
         (map (resolve_image (messages session)) (related_images session)))
  else [].

Definition previousMessageHistory (session : Session) : list HistoryItem :=
  map (fun m => {| h_role := role m; h_content := content m |})
    (messages session).

(** The synchronous part of [sendMessage(sessionId, text)], up to the call of
    [fetch]. [chat] is the state the component was rendered with (the value
    of [useSelector]), [st] the state of the store the dispatches act on.
    The result is the store after the dispatches and the request issued. *)
Definition sendMessage (chat st : ChatState) (sessionId text : string)
    (env : SendEnv) : ChatState * option Payload :=
  match find (has_id sessionId) (sessions chat) with
  | None => (st, None)
  | Some session =>
      if truthy (loading session) then (st, None)
      else
        let st1 := reducer st (SetSessionLoading sessionId true (t_loading env)) in
        let imgs := userImages session in
        let relatedImages := related_images session in
        let st2 := reducer st1 (ClearTaggedImages sessionId (t_clear env)) in
        let st3 :=
          reducer st2
            (AddUserMessage sessionId text (Some imgs) (user_msg_id env)
               (t_user_msg env) (t_user_upd env)) in
        (st3,
         Some {| p_prev_context := prev_context session;
                 message_history := previousMessageHistory session;
                 query := text;
                 p_was_context_valid_old := was_context_valid_old session;
                 p_is_follow_up_old := is_follow_up_old session;
                 p_related_images := relatedImages |})
  end.

(** The reply of the service after [res.json()]: absent fields are [None];
    the two flags are given as coerced by [Boolean(...)]. *)
Record Reply := mkReply {
  answer : option string;
  r_images : option (list (option string * option string));
  context : option string;
  was_context_valid : bool;
  is_follow_up : bool }.

Definition or_empty (o : option string) : string :=
  match o with Some s => s | None => "" end.

Definition FALLBACK : string :=
  "**Sorry!** - *service currently unavailable. Please try again later.*".

(** The continuation of [sendMessage] after [fetch]: [Some reply] for a
    response with an ok status, [None] for a failure. *)
Definition onReply (st : ChatState) (sessionId : string)
    (res : option Reply) (nid : string) (t_msg t_upd t_meta : Z) : ChatState :=
  match res with
  | Some d =>
      let imgs :=
        match r_images d with
        | Some l =>
            map (fun it => {| path := or_empty (fst it);
                              data := or_empty (snd it) |}) l
        | None => []
        end in
      let st1 :=
        reducer st
          (AddModelMessage sessionId (or_empty (answer d)) (Some imgs)
             (Some false) nid t_msg t_upd) in
      reducer st1
        (SetSessionMeta sessionId (Some (or_empty (context d)))
           (Some (was_context_valid d)) (Some (is_follow_up d)) None None
           t_meta)
  | None =>
      reducer st
        (AddModelMessage sessionId FALLBACK None (Some false) nid t_msg t_upd)
  end.

End ChatApp.

(** ** [scrollIntoView] of [utils/scroll] *)

Module Scroll.

(** The geometry of a scrollable element. *)
Record Element := mkElement {
  scrollHeight : Z;
  scrollTop : Z;
  clientHeight : Z }.

(** [scrollIntoView(ref)]: the [top] of the [scrollTo] command issued, if
    any. [None] as argument is a ref whose [current] is [null]. *)
Definition scrollIntoView (ref : option Element) : option Z :=
  match ref with
  | None => None
  | Some element =>
      if (scrollHeight element <=? clientHeight element)%Z then None
      else Some (scrollHeight element)
  end.

(** [handleScroll] of [ChatWindow]: the value given to [setIsAtBottom]. *)
Definition isAtBottom (container : Element) : bool :=
  (scrollHeight container - scrollTop container - clientHeight container <? 50)%Z.

End Scroll.

(** ** The reveal scheduler: [useTyping] and [ImageMessage] *)

Module Typing.
Import Store.

(** The state of one hook instance: the three [useState] cells, the refs,
    the local [prevTime] of the effect, what is scheduled, and what the hook
    has sent out so far. *)
Record Hook := mkHook {
  typedText : string;
  isTypingComplete : bool;
  showImages : bool;
  charIndex : nat;
  prevTime : Q;
  rafRef : bool;               (* a frame callback is scheduled *)
  settleTimers : nat;          (* pending 300 ms timers *)
  dispatchedMarkRef : bool;
  dispatched : list Action;    (* dispatches to the store, oldest first *)
  scrolls : nat }.             (* calls of [scrollIntoView] *)

Definition isUser (m : ChatMessage) : bool :=
  match role m with user => true | model => false end.

Definition isNew (m : ChatMessage) : bool :=
  negb (isUser m) && negb (truthy (typed m)).

(** The first render: the initial values of the state cells and refs. *)
Definition init (m : ChatMessage) : Hook :=
  {| typedText := if isUser m || negb (isNew m) then content m else "";
     isTypingComplete := negb (isNew m);
     showImages := truthy (typed m);
     charIndex := 0;
     prevTime := 0%Q;
     rafRef := false;
     settleTimers := 0;
     dispatchedMarkRef := false;
     dispatched := [];
     scrolls := 0 |}.

(** The body of the effect, run at time [now] of [performance.now()]. *)
Definition effect (m : ChatMessage) (now : Q) (h : Hook) : Hook :=
  if negb (isNew m) then
    mkHook (content m) true
      (if truthy (typed m) then true else showImages h)
      (charIndex h) (prevTime h) (rafRef h) (settleTimers h)
      (dispatchedMarkRef h) (dispatched h) (scrolls h)
  else
    mkHook "" false false 0 now true (settleTimers h) false
      (dispatched h) (scrolls h).

(** [m.content[charIndex.current - 1]]; index [-1] gives [undefined]. *)
Definition currentChar (m : ChatMessage) (h : Hook) : option ascii :=
  match charIndex h with
  | O => None
  | S i => String.get i (content m)
  end.

Definition is_char (c : option ascii) (a : ascii) : bool :=
  match c with Some x => Ascii.eqb x a | None => false end.

(** The delay chosen from the character, before randomization. *)
Definition baseDelay (c : option ascii) : Q :=
  if is_char c "." || is_char c "!" || is_char c "?" then 100%Q
  else if is_char c "," || is_char c ";" then 40%Q
  else if is_char c " " then 8%Q
  else if is_char c "010" then 60%Q
  else 12%Q.

(** [dynamicDelay += (Math.random() - 0.5) * dynamicDelay * 0.25], with [r]
    the value of [Math.random()]. *)
Definition dynamicDelay (c : option ascii) (r : Q) : Q :=
  (baseDelay c + (r - (1 # 2)) * baseDelay c * (1 # 4))%Q.

(** One call of [step(time)]. *)
Definition step (m : ChatMessage) (time r : Q) (h : Hook) : Hook :=
  let delay := dynamicDelay (currentChar m h) r in
  let advance := Qle_bool delay (time - prevTime h) in
  let idx := if advance then S (charIndex h) else charIndex h in
  let text := if advance then substring 0 idx (content m) else typedText h in
  let prev := if advance then time else prevTime h in
  if (idx <? String.length (content m))%nat then
    mkHook text (isTypingComplete h) (showImages h) idx prev true
      (settleTimers h) (dispatchedMarkRef h) (dispatched h) (scrolls h)
  else
    mkHook (content m) true (showImages h) idx prev false
      (S (settleTimers h)) (dispatchedMarkRef h) (dispatched h) (scrolls h).

(** The callback of the 300 ms timer; [atBottom] is [isAtBottomRef.current]
    when it runs. *)
Definition onSettleTimeout (m : ChatMessage) (sessionId : string)
    (atBottom : bool) (h : Hook) : Hook :=
  if (0 <? List.length (images m))%nat then
    mkHook (typedText h) (isTypingComplete h) true (charIndex h) (prevTime h)
      (rafRef h) (settleTimers h) (dispatchedMarkRef h) (dispatched h)
      (scrolls h)
  else if negb (dispatchedMarkRef h) then
    mkHook (typedText h) (isTypingComplete h) (showImages h) (charIndex h)
      (prevTime h) (rafRef h) (settleTimers h) true
      (dispatched h ++ [MarkMessageTyped sessionId (m_id m)])
      (if atBottom then S (scrolls h) else scrolls h)
  else h.

(** [onAnimationComplete] of the image grid of [ImageMessage], which shares
    [dispatchedMarkRef] with the hook. *)
Definition onAnimationComplete (m : ChatMessage) (sessionId : string)
    (h : Hook) : Hook :=
  if negb (dispatchedMarkRef h) && negb (truthy (typed m))
     && truthy_str sessionId && truthy_str (m_id m)
  then
    mkHook (typedText h) (isTypingComplete h) (showImages h) (charIndex h)
      (prevTime h) (rafRef h) (settleTimers h) true
      (dispatched h ++ [MarkMessageTyped sessionId (m_id m)])
      (S (scrolls h))
  else h.

(** The animated grid exists when [MessageBubble] renders [ImageMessage]
    and [ImageMessage] takes its model branch. *)
Definition gridRendered (m : ChatMessage) (h : Hook) : bool :=
  (isTypingComplete h || isUser m)
  && (0 <? List.length (images m))%nat
  && negb (isUser m) && showImages h.

(** The cleanup of the effect cancels the frame callback only. *)
Definition cleanup (h : Hook) : Hook :=
  mkHook (typedText h) (isTypingComplete h) (showImages h) (charIndex h)
    (prevTime h) false (settleTimers h) (dispatchedMarkRef h) (dispatched h)
    (scrolls h).

Definition clearTimer (h : Hook) : Hook :=
  mkHook (typedText h) (isTypingComplete h) (showImages h) (charIndex h)
    (prevTime h) (rafRef h) (pred (settleTimers h)) (dispatchedMarkRef h)
    (dispatched h) (scrolls h).

(** What the environment delivers to a mounted bubble. *)
Inductive Event :=
| Frame (time r : Q)
| SettleTimeout (atBottom : bool)
| AnimationComplete
| Cleanup.

Definition handle (m : ChatMessage) (sessionId : string) (h : Hook)
    (e : Event) : Hook :=
  match e with
  | Frame time r => if rafRef h then step m time r h else h
  | SettleTimeout atBottom =>
      match settleTimers h with
      | O => h
      | S _ => onSettleTimeout m sessionId atBottom (clearTimer h)
      end
  | AnimationComplete =>
      if gridRendered m h then onAnimationComplete m sessionId h else h
  | Cleanup => cleanup h
  end.

(** The frames of the animation clock: [clock k] is the timestamp of the
    [k]-th frame and the value [Math.random()] returns in it. *)
Definition Clock := nat -> Q * Q.

Fixpoint frames_from (m : ChatMessage) (sessionId : string) (clock : Clock)
    (k n : nat) (h : Hook) : Hook :=
  match n with
  | O => h
  | S n' =>
      frames_from m sessionId clock (S k) n'
        (handle m sessionId h (Frame (fst (clock k)) (snd (clock k))))
  end.

(** Mounting at time [now], then the first [n] frames. *)
Definition reveal (m : ChatMessage) (sessionId : string) (now : Q)
    (clock : Clock) (n : nat) : Hook :=
  frames_from m sessionId clock 0 n (effect m now (init m)).



(** The frame loop is running and nothing has been sent. *)
Definition revealing (h : Hook) : Prop :=
  rafRef h = true /\ settleTimers h = 0%nat /\ dispatchedMarkRef h = false /\
  dispatched h = [].

(** The frame loop has ended: the text is complete and the timer is set. *)
Definition finished (m : ChatMessage) (h : Hook) : Prop :=
  rafRef h = false /\ typedText h = content m /\ isTypingComplete h = true /\
  settleTimers h = 1%nat /\ dispatchedMarkRef h = false /\ dispatched h = [].

(** A message under reveal and a clock of one frame every 20 time units,
    used as examples. *)
Definition hi_message : ChatMessage :=
  mkMessage "m1" model "Hi." [] None (Some false) 0.

Definition steady_clock : Clock :=
  fun k => (inject_Z (20 * Z.of_nat (S k)), (1 # 2)%Q).

End Typing.

(** ** The auto-follow controller: [useAutoScroll] *)

Module AutoScroll.
Import Scroll.

(** One instance of the hook whose observed element exists. [timeout] is the
    variable of the effect; [pending] holds the timers set and neither fired
    nor cleared; timer ids are positive, as [setTimeout] returns them. *)
Record Scroller := mkScroller {
  enabledRef : bool;
  observing : bool;
  timeout : option positive;
  pending : list positive;
  nextTimer : positive;
  scrolled : list Z }.     (* [top] of the [scrollTo] commands, oldest first *)

Definition mount (enabled : bool) : Scroller :=
  {| enabledRef := enabled; observing := true; timeout := None;
     pending := []; nextTimer := 1%positive; scrolled := [] |}.

Definition clearTimeout (t : option positive) (l : list positive)
  : list positive :=
  match t with
  | Some id => filter (fun x => negb (Pos.eqb x id)) l
  | None => l
  end.

(** The callback of the [ResizeObserver]. *)
Definition onResize (s : Scroller) : Scroller :=
  if negb (enabledRef s) then s
  else
    let cleared := clearTimeout (timeout s) (pending s) in
    let id := nextTimer s in
    mkScroller (enabledRef s) (observing s) (Some id) (cleared ++ [id])
      (Pos.succ id) (scrolled s).

(** The callback given to [setTimeout]; [target] is [targetRef.current] when
    it runs. *)
Definition onTimer (target : option Element) (s : Scroller) : Scroller :=
  if enabledRef s then
    match scrollIntoView target with
    | Some top =>
        mkScroller (enabledRef s) (observing s) (timeout s) (pending s)
          (nextTimer s) (scrolled s ++ [top])
    | None => s
    end
  else s.

Inductive Event :=
| SetEnabled (enabled : bool)            (* the effect on [enabled] *)
| Resize                                 (* a size-change notification *)
| Fire (id : positive) (target : option Element)   (* timer [id] elapses *)
| Unmount.

Definition handle (s : Scroller) (e : Event) : Scroller :=
  match e with
  | SetEnabled b =>
      mkScroller b (observing s) (timeout s) (pending s) (nextTimer s)
        (scrolled s)
  | Resize => if observing s then onResize s else s
  | Fire id target =>
      if existsb (Pos.eqb id) (pending s) then
        onTimer target
          (mkScroller (enabledRef s) (observing s) (timeout s)
             (filter (fun x => negb (Pos.eqb x id)) (pending s))
             (nextTimer s) (scrolled s))
      else s
  | Unmount =>
      mkScroller (enabledRef s) false (timeout s)
        (clearTimeout (timeout s) (pending s)) (nextTimer s) (scrolled s)
  end.

Definition run (s : Scroller) (l : list Event) : Scroller :=
  fold_left handle l s.

(** At most one timer is pending, it is the one [timeout] holds, and the
    ids of pending timers are older than the next id. *)
Definition inv (s : Scroller) : Prop :=
  (pending s = [] \/ exists id, pending s = [id] /\ timeout s = Some id) /\
  forall id, In id (pending s) -> (id < nextTimer s)%positive.

End AutoScroll.

(** ** The effect of [Sidebar] on new sessions *)

Module Sidebar.
Import Store.

(** [seenRef.current.add(id)]; the set is the list of its elements in the
    order of insertion. *)
Definition add (id : string) (seen : list string) : list string :=
  if mem id seen then seen else seen ++ [id].

(** The ids of the sessions that are new and not seen yet. *)
Definition newIds (seen : list string) (sessions : list Session)
  : list string :=
  map s_id
    (filter (fun s => truthy (new s) && negb (mem (s_id s) seen)) sessions).

(** One run of the effect: the set of seen ids afterwards, and the ids the
    frame callback it requests will call [updateStatus] with (none when no
    callback is requested). *)
Definition effect (seen : list string) (sessions : list Session)
  : list string * list string :=
  let ids := newIds seen sessions in
  if (List.length ids =? 0)%nat then (seen, [])
  else (fold_left (fun acc id => add id acc) ids seen, ids).

(** The frame callback: [updateStatus(id)], that is
    [dispatch(setSessionStatus(id))], for each id in turn; [now k] is the
    value of [Date.now()] in the [k]-th dispatch. *)
Fixpoint updateStatusAll (st : ChatState) (ids : list string) (k : nat)
    (now : nat -> Z) : ChatState :=
  match ids with
  | [] => st
  | id :: rest =>
      updateStatusAll (reducer st (SetSessionStatus id (now k))) rest (S k) now
  end.

End Sidebar.

(** ** The effect of [ChatWindow] on a change of session *)

Module ChatWindow.
Import Store.

Definition untyped_model (m : ChatMessage) : bool :=
  match role m with model => negb (truthy (typed m)) | user => false end.

(** The dispatches of the effect that runs when [session.id] changes: one
    [markMessageTyped] for each model message not yet typed, in the order
    of the messages. *)
Definition onSessionChange (session : Session) : list Action :=
  flat_map
    (fun m =>
       if untyped_model m
       then [MarkMessageTyped (s_id session) (m_id m)]
       else [])
    (messages session).

End ChatWindow.

(** ** [preprocessMarkdown] and the trimming of the input *)

Module Markdown.

(** The characters [\s] matches and [trim] removes, among the code units
    below 256: tab, line feed, vertical tab, form feed, carriage return,
    space and no-break space. *)
Definition is_space (c : ascii) : bool :=
  Ascii.eqb c "009" || Ascii.eqb c "010" || Ascii.eqb c "011"
  || Ascii.eqb c "012" || Ascii.eqb c "013" || Ascii.eqb c " "
  || Ascii.eqb c "160".

(** [\d]. *)
Definition is_digit (c : ascii) : bool :=
  (48 <=? nat_of_ascii c)%nat && (nat_of_ascii c <=? 57)%nat.

Fixpoint trimStart (s : string) : string :=
  match s with
  | EmptyString => EmptyString
  | String c r => if is_space c then trimStart r else s
  end.

(** [s.replace(/\s+$/g, '')], which is also what [trim] does at the end. *)
Fixpoint trimEnd (s : string) : string :=
  match s with
  | EmptyString => EmptyString
  | String c r =>
      match trimEnd r with
      | EmptyString => if is_space c then EmptyString else String c EmptyString
      | r' => String c r'
      end
  end.

Definition trim (s : string) : string := trimEnd (trimStart s).

(** [text.split(/\r?\n/)]. *)
Fixpoint split_lines (s : string) : list string :=
  match s with
  | EmptyString => [EmptyString]
  | String c r =>
      if Ascii.eqb c "010" then EmptyString :: split_lines r
      else
        match r with
        | String d r' =>
            if Ascii.eqb c "013" && Ascii.eqb d "010"
            then EmptyString :: split_lines r'
            else
              match split_lines r with
              | l :: ls => String c l :: ls
              | [] => [String c EmptyString]
              end
        | EmptyString => [String c EmptyString]
        end
  end.

(** [line.trim().startsWith('```')]. *)
Definition is_fence (line : string) : bool := prefix "```" (trim line).

(** [line.trim() === '']. *)
Definition is_blank (line : string) : bool := (trim line =? "")%string.

Fixpoint skip_digits (s : string) : string :=
  match s with
  | String c r => if is_digit c then skip_digits r else s
  | EmptyString => EmptyString
  end.

Definition starts_with_space (s : string) : bool :=
  match s with String c _ => is_space c | EmptyString => false end.

(** [/^\s*([-*+]\s+|\d+\.\s+)/.test(line)]: after the leading white space, a
    bullet and a white space, or digits, a full stop and a white space. *)
Definition is_list (line : string) : bool :=
  match trimStart line with
  | EmptyString => false
  | String c r =>
      if Ascii.eqb c "-" || Ascii.eqb c "*" || Ascii.eqb c "+"
      then starts_with_space r
      else if is_digit c then
        match skip_digits r with
        | String d r' => Ascii.eqb d "." && starts_with_space r'
        | EmptyString => false
        end
      else false
  end.

(** Where the loop over the lines stands: at the top of the outer loop, in
    the inner loop of a fenced block, or in the inner loop of a list. *)
Inductive Mode := Normal | Code | ListBlock.

(** The lines pushed to [out] for the remaining lines. The branch for
    headings, rules and quotes pushes what the default branch pushes (the
    line, then an empty line), so the two are one case. *)
Fixpoint scan (mode : Mode) (lines : list string) : list string :=
  match lines with
  | [] => match mode with ListBlock => [EmptyString] | _ => [] end
  | line :: rest =>
      let normal :=
        if is_fence line then line :: scan Code rest
        else if is_blank line then EmptyString :: scan Normal rest
        else if is_list line then line :: scan ListBlock rest
        else line :: EmptyString :: scan Normal rest in
      match mode with
      | Normal => normal
      | Code => line :: scan (if is_fence line then Normal else Code) rest
      | ListBlock =>
          if is_blank line || is_list line
          then line :: scan ListBlock rest
          else EmptyString :: normal
      end
  end.

Definition newlines (k : nat) : string :=
  String.concat "" (repeat (String "010" EmptyString) k).

(** [s.replace(/\n{3,}/g, '\n\n')]: [k] is the length of the run of line
    feeds read so far and not written yet. *)
Fixpoint collapse (k : nat) (s : string) : string :=
  match s with
  | EmptyString => newlines (if (3 <=? k)%nat then 2 else k)
  | String c r =>
      if Ascii.eqb c "010" then collapse (S k) r
      else
        (newlines (if (3 <=? k)%nat then 2 else k) ++ String c (collapse 0 r))%string
  end.

Definition preprocessMarkdown (text : string) : string :=
  trimEnd
    (collapse 0
       (String.concat (String "010" EmptyString) (scan Normal (split_lines text)))).

(** [handleSend] of [ChatWindow]: the text given to [onSend], if any. *)
Definition handleSend (input : string) : option string :=
  let t := trim input in
  if (t =? "")%string then None else Some t.

(** The longest run of line feeds in a string is shorter than three; [k] is
    the length of the run that ends where the string starts. *)
Fixpoint no_triple (k : nat) (s : string) : bool :=
  match s with
  | EmptyString => true
  | String c r =>
      if Ascii.eqb c "010"
      then (S k <? 3)%nat && no_triple (S k) r
      else no_triple 0 r
  end.

Fixpoint all_space (s : string) : bool :=
  match s with
  | EmptyString => true
  | String c r => is_space c && all_space r
  end.

Fixpoint last_char (s : string) : option ascii :=
  match s with
  | EmptyString => None
  | String c r =>
      match r with EmptyString => Some c | _ => last_char r end
  end.

End Markdown.

(** ** States of a bubble used in the properties of the hook *)

Module TypingStates.
Import Store Typing.

(** Nothing is scheduled, nothing has been sent, and the whole content is
    shown. *)
Definition at_rest (m : ChatMessage) (h : Hook) : Prop :=
  rafRef h = false /\ settleTimers h = 0%nat /\ dispatched h = [] /\
  scrolls h = 0%nat /\ typedText h = content m.

(** Nothing has been sent, and as long as the frame loop runs the typing
    is not complete and no timer is set. *)
Definition in_loop (h : Hook) : Prop :=
  dispatched h = [] /\ scrolls h = 0%nat /\ dispatchedMarkRef h = false /\
  (rafRef h = true -> isTypingComplete h = false /\ settleTimers h = 0%nat).

(** The text shown is the content up to the cursor, and a running loop has
    its cursor inside the content. *)
Definition cursor_ok (m : ChatMessage) (h : Hook) : Prop :=
  typedText h = substring 0 (charIndex h) (content m) /\
  (rafRef h = true ->
   (charIndex h < String.length (content m))%nat \/ charIndex h = 0%nat) /\
  (charIndex h <= Nat.max 1 (String.length (content m)))%nat.

(** A user message and a model message with an image, used as examples. *)
Definition user_message : ChatMessage :=
  mkMessage "m0" user "yo" [] (Some false) None 0.

Definition pic_message : ChatMessage :=
  mkMessage "m2" model "A" [mkImage "p1" "d1"] None (Some false) 0.

End TypingStates.

(** ** Vocabulary of the properties *)

Module Props.
Import Store.

(** The active id is [null] or the id of a session of the list. *)
Definition active_ok (st : ChatState) : Prop :=
  match activeSessionId st with
  | None => True
  | Some a => In a (map s_id (sessions st))
  end.

(** The states the store can be in: the initial one and those the reducers
    produce. *)
Inductive reachable : ChatState -> Prop :=
| reach_init : reachable initialState
| reach_step st a : reachable st -> reachable (reducer st a).

(** The id of the session that follows, in the list, the first session with
    id [id]. *)
Fixpoint following (id : string) (l : list Session) : option string :=
  match l with
  | [] => None
  | s :: rest =>
      if s_id s =? id
      then match rest with n :: _ => Some (s_id n) | [] => None end
      else following id rest
  end.

(** A flag either keeps its value or becomes [true]. *)
Definition flag_step (a b : option bool) : Prop := b = a \/ b = Some true.

(** [m'] is [m] after a step of the store: nothing but the two flags may
    differ, and a flag only changes to [true]. *)
Definition msg_step (m m' : ChatMessage) : Prop :=
  m_id m' = m_id m /\ role m' = role m /\ content m' = content m /\
  images m' = images m /\ m_createdAt m' = m_createdAt m /\
  flag_step (typed m) (typed m') /\ flag_step (animated m) (animated m').

(** [s'] is [s] after a step: its messages are those of [s], in place, each
    after a [msg_step], followed by the messages appended. *)
Definition sess_step (s s' : Session) : Prop :=
  s_id s' = s_id s /\
  exists old added,
    messages s' = old ++ added /\ Forall2 msg_step (messages s) old.

(** The first image with path [p] in the messages taken in order. *)
Definition first_image (ms : list ChatMessage) (p : string)
  : option ChatImage :=
  find (fun img => path img =? p) (List.concat (map images ms)).

(** The images a list of tagged ids resolves to: for each id in turn the
    first image with that path; an id without image, and the empty id, give
    nothing. *)
Definition resolved (ms : list ChatMessage) (tags : list string)
  : list ChatImage :=
  flat_map (fun p =>
              match first_image ms p with
              | Some img => if truthy_str p then [img] else []
              | None => []
              end) tags.

End Props.

(** ** States used as examples *)

Module Examples.
Import Store.

(** Three sessions [A], [B], [C] in this order, [A] active. *)
Definition abc : ChatState :=
  run initialState
    [AddSession (Some "C") "C" 1; AddSession (Some "B") "B" 2;
     AddSession (Some "A") "A" 3].

(** One session waiting for a reply. *)
Definition waiting : ChatState :=
  run initialState
    [AddSession None "s1" 1; SetSessionLoading "s1" true 2].


(** One session with two tags. *)
Definition tagged : ChatState :=
  run initialState
    [AddSession None "s1" 1; ToggleTaggedImage "s1" "p1" 2;
     ToggleTaggedImage "s1" "p2" 3].

(** A session with a tagged image that exists, a tag that no image carries,
    and nothing loading. *)
Definition with_ghost : ChatState :=
  run initialState
    [AddSession None "s1" 1;
     AddModelMessage "s1" "see" (Some [mkImage "p1" "d1"]) (Some true) "m1" 2 3;
     ToggleTaggedImage "s1" "ghost" 4;
     ToggleTaggedImage "s1" "p1" 5].

(** A session with a user message and a model message still to be typed. *)
Definition replied : ChatState :=
  run initialState
    [AddSession None "s1" 1;
     AddUserMessage "s1" "hello" None "m1" 2 3;
     AddModelMessage "s1" "hi" None (Some false) "m2" 4 5].

End Examples.

(** ** Properties of the store *)

Module StoreFacts.
Import Store Props Examples.

Lemma find_none_update_first {A : Type} (p : A -> bool) (f : A -> A) l :
  find p l = None -> update_first p f l = l.
Proof.
  induction l as [|x r IH]; simpl; auto.
  destruct (p x); [discriminate|]. intros H. now rewrite IH.
Qed.

Lemma with_session_absent st sid f :
  find (has_id sid) (sessions st) = None -> with_session st sid f = st.
Proof. unfold with_session. now intros ->. Qed.

Lemma update_first_ids sid f l :
  (forall s, s_id (f s) = s_id s) ->
  map s_id (update_first (has_id sid) f l) = map s_id l.
Proof.
  intros Hf. induction l as [|x r IH]; simpl; auto.
  destruct (has_id sid x); simpl; [now rewrite Hf | now rewrite IH].
Qed.

Lemma with_session_ids st sid f :
  (forall s, s_id (f s) = s_id s) ->
  map s_id (sessions (with_session st sid f)) = map s_id (sessions st) /\
  activeSessionId (with_session st sid f) = activeSessionId st.
Proof.
  intros Hf. unfold with_session.
  destruct (find (has_id sid) (sessions st)); simpl; auto using update_first_ids.
Qed.

Lemma with_session_active_ok st sid f :
  (forall s, s_id (f s) = s_id s) ->
  active_ok st -> active_ok (with_session st sid f).
Proof.
  intros Hf H. destruct (with_session_ids st sid f Hf) as [Hi Ha].
  unfold active_ok in *. now rewrite Ha, Hi.
Qed.

Lemma find_has_id_in sid l s :
  find (has_id sid) l = Some s -> In sid (map s_id l).
Proof.
  intros H. apply find_some in H as [Hin Hid].
  unfold has_id in Hid. apply String.eqb_eq in Hid. subst sid.
  now apply in_map.
Qed.

Lemma find_has_id_none sid l :
  find (has_id sid) l = None <-> ~ In sid (map s_id l).
Proof.
  induction l as [|x r IH]; simpl.
  - tauto.
  - unfold has_id at 1. destruct (String.eqb_spec (s_id x) sid).
    + split; [discriminate | tauto].
    + rewrite IH. tauto.
Qed.

Lemma removeSession_active_ok st id :
  active_ok st -> active_ok (removeSession st id).
Proof.
  unfold active_ok, removeSession. simpl.
  destruct (activeSessionId st) as [a|]; auto.
  intros Hin. destruct (String.eqb_spec a id) as [->|Hne].
  - destruct (filter _ (sessions st)); simpl; auto.
  - apply in_map_iff in Hin as (s & <- & Hs).
    apply in_map. apply filter_In. split; auto.
    destruct (String.eqb_spec (s_id s) id); [contradiction | reflexivity].
Qed.

Lemma reducer_active_ok st a : active_ok st -> active_ok (reducer st a).
Proof.
  intros H. destruct a; simpl;
    try (apply with_session_active_ok; [intros; reflexivity | assumption]).
  - unfold bootstrapFirstSession.
    destruct (_ && _); auto. unfold active_ok. simpl.
    rewrite map_app. apply in_or_app. right. simpl. auto.
  - unfold active_ok. simpl. auto.
  - unfold switchSession.
    destruct (find (has_id id) (sessions st)) eqn:E; auto.
    unfold active_ok. simpl. eapply find_has_id_in; eauto.
  - now apply removeSession_active_ok.
  - apply with_session_active_ok; auto.
    intros s. destruct prev_context_, was_context_valid_old_,
      is_follow_up_old_, related_images_, title_; reflexivity.
Qed.

(** C10. In every state reachable from the initial state by the reducers,
    [activeSessionId] is [null] or the id of a session of the list. *)
Theorem active_session_invariant st : reachable st -> active_ok st.
Proof.
  induction 1 as [|st a _ IH].
  - exact I.
  - now apply reducer_active_ok.
Qed.

Lemma active_session_invariant_witness :
  active_ok (reducer (reducer initialState (AddSession None "a" 1)) (RemoveSession "b")).
Proof.
  apply active_session_invariant. do 2 apply reach_step. apply reach_init.
Defined.

(** How each of the four session operations sets the active id. *)
Lemma addSession_active st t nid now :
  activeSessionId (addSession st t nid now) = Some nid /\
  In nid (map s_id (sessions (addSession st t nid now))).
Proof. simpl. auto. Qed.

Lemma bootstrap_active st nid now :
  bootstrapFirstSession st nid now = st \/
  (sessions st = [] /\
   bootstrapFirstSession st nid now =
     {| sessions := [createNewSession (Some "First Chat") nid now];
        activeSessionId := Some nid |}).
Proof.
  unfold bootstrapFirstSession.
  destruct (negb _); simpl; auto.
  destruct (sessions st); simpl; auto.
Qed.

Lemma switchSession_active st id :
  (In id (map s_id (sessions st)) ->
   activeSessionId (switchSession st id) = Some id) /\
  (~ In id (map s_id (sessions st)) -> switchSession st id = st) /\
  sessions (switchSession st id) = sessions st.
Proof.
  unfold switchSession.
  destruct (find (has_id id) (sessions st)) eqn:E; simpl.
  - repeat split; auto. intros Hn. apply find_has_id_in in E. contradiction.
  - repeat split; auto. intros Hin. apply find_has_id_none in E. contradiction.
Qed.

(** *** Removal of a session *)

Lemma filter_all {A : Type} (p : A -> bool) l :
  (forall x, In x l -> p x = true) -> filter p l = l.
Proof.
  induction l as [|x r IH]; simpl; auto. intros H.
  rewrite (H x) by auto. f_equal. auto.
Qed.

(** C4, as the code has it. Removing the active session makes the first
    session that remains in the list the active one, or [null] when none
    remains; this is the session that followed the removed one when the
    removed one was at the head of the list. Removing another session leaves
    the active id as it is. *)
Theorem removeSession_promotes_first st id :
  (activeSessionId st = Some id ->
   activeSessionId (removeSession st id) =
     option_map s_id (hd_error (sessions (removeSession st id)))) /\
  (activeSessionId st = Some id ->
   forall a b rest, sessions st = a :: b :: rest -> s_id a = id ->
     s_id b <> id -> activeSessionId (removeSession st id) = Some (s_id b)) /\
  (activeSessionId st <> Some id ->
   activeSessionId (removeSession st id) = activeSessionId st).
Proof.
  unfold removeSession; simpl. repeat split.
  - intros ->. rewrite String.eqb_refl.
    now destruct (filter _ (sessions st)).
  - intros -> a b rest -> Ha Hb. rewrite String.eqb_refl. simpl.
    apply String.eqb_eq in Ha. rewrite Ha. simpl.
    apply String.eqb_neq in Hb. now rewrite Hb.
  - intros Hne. destruct (activeSessionId st) as [a|]; auto.
    destruct (String.eqb_spec a id); congruence.
Qed.

Lemma removeSession_promotes_first_witness :
  activeSessionId (removeSession abc "A") = Some "B" /\
  activeSessionId (removeSession abc "C") = Some "A".
Proof.
  destruct (removeSession_promotes_first abc "A") as (_ & H2 & _).
  destruct (removeSession_promotes_first abc "C") as (_ & _ & H3).
  split.
  - refine (H2 eq_refl _ _ _ eq_refl eq_refl _). discriminate.
  - rewrite H3; [reflexivity | discriminate].
Defined.

(** C4 as stated fails: with [B] active in the list [A, B, C], removing [B]
    makes [A] active, not [C], the session that follows [B]. *)
Lemma removeSession_not_following :
  ~ (forall st id, activeSessionId st = Some id ->
       activeSessionId (removeSession st id) = following id (sessions st)).
Proof.
  intros H.
  specialize (H (reducer abc (SwitchSession "B")) "B" eq_refl).
  vm_compute in H. discriminate H.
Qed.

(** *** Operations on absent ids *)

Lemma state_eta st :
  {| sessions := sessions st; activeSessionId := activeSessionId st |} = st.
Proof. now destruct st. Qed.

Lemma update_first_ext {A : Type} (p : A -> bool) (f g : A -> A) l s :
  find p l = Some s -> f s = g s -> update_first p f l = update_first p g l.
Proof.
  induction l as [|x r IH]; simpl; [discriminate|].
  destruct (p x).
  - intros [= ->] ->. reflexivity.
  - intros Hs Hfg. f_equal. auto.
Qed.

Lemma update_first_fix {A : Type} (p : A -> bool) (f : A -> A) l s :
  find p l = Some s -> f s = s -> update_first p f l = l.
Proof.
  induction l as [|x r IH]; simpl; [discriminate|].
  destruct (p x).
  - intros [= ->] ->. reflexivity.
  - intros Hs Hf. f_equal. auto.
Qed.

Lemma set_messages_same s : set_messages (messages s) s = s.
Proof. now destruct s. Qed.

Lemma removeSession_absent st id :
  active_ok st -> find (has_id id) (sessions st) = None ->
  removeSession st id = st.
Proof.
  intros Hok Hnone. apply find_has_id_none in Hnone.
  unfold removeSession. rewrite filter_all.
  - rewrite <- (state_eta st) at 3. f_equal.
    unfold active_ok in Hok. destruct (activeSessionId st) as [a|]; auto.
    destruct (String.eqb_spec a id); congruence.
  - intros s Hs. destruct (String.eqb_spec (s_id s) id); auto.
    exfalso. apply Hnone. subst id. now apply in_map.
Qed.

(** C5, as the code has it. In a state whose active id is [null] or
    present, an operation addressed to a session id that is not in the state
    leaves the state as it is. With the session present and the message id
    absent, [markMessageAnimated] leaves the state as it is, and
    [markMessageTyped] changes no message but still sets [loading] of that
    session to [false]. *)
Theorem lookup_miss st :
  active_ok st ->
  (forall a sid, target a = Some sid ->
     find (has_id sid) (sessions st) = None -> reducer st a = st) /\
  (forall sid mid s, find (has_id sid) (sessions st) = Some s ->
     find (msg_has_id mid) (messages s) = None ->
     markMessageAnimated st sid mid = st /\
     markMessageTyped st sid mid = with_session st sid (set_loading (Some false))).
Proof.
  intros Hok. split.
  - intros a sid Ht Hnone.
    destruct a; simpl in Ht; try discriminate; injection Ht as ->; simpl;
      try (now apply with_session_absent).
    + unfold switchSession. now rewrite Hnone.
    + now apply removeSession_absent.
  - intros sid mid s Hs Hm.
    unfold markMessageAnimated, markMessageTyped, with_session.
    rewrite Hs. split.
    + rewrite (update_first_fix _ _ _ s); [apply state_eta | assumption |].
      rewrite find_none_update_first by assumption.
      apply set_messages_same.
    + f_equal. apply update_first_ext with (s := s); auto.
      rewrite find_none_update_first by assumption.
      now rewrite set_messages_same.
Qed.

Lemma lookup_miss_witness :
  reducer waiting (ToggleTaggedImage "s2" "p" 3) = waiting /\
  markMessageAnimated waiting "s1" "m0" = waiting.
Proof.
  assert (Hok : active_ok waiting) by (left; reflexivity).
  destruct (lookup_miss waiting Hok) as [H1 H2]. split.
  - apply (H1 _ "s2"); reflexivity.
  - apply (H2 "s1" "m0" _ eq_refl eq_refl).
Defined.

(** C5 as stated fails: [markMessageTyped] on a present session and an
    absent message id changes the state, since it clears [loading]. *)
Lemma markMessageTyped_miss_changes_state :
  ~ (forall st sid mid s, find (has_id sid) (sessions st) = Some s ->
       find (msg_has_id mid) (messages s) = None ->
       markMessageTyped st sid mid = st).
Proof.
  intros H.
  specialize (H waiting "s1" "m0" _ eq_refl eq_refl).
  vm_compute in H. discriminate H.
Qed.

(** *** Tags *)

Lemma mem_In x l : mem x l = true <-> In x l.
Proof.
  unfold mem. rewrite existsb_exists. split.
  - intros (y & Hy & E). apply String.eqb_eq in E. now subst.
  - intros H. exists x. split; auto. apply String.eqb_refl.
Qed.

Lemma mem_false x l : mem x l = false <-> ~ In x l.
Proof.
  rewrite <- mem_In. destruct (mem x l); split; congruence.
Qed.


Lemma remove_first_subset x y l : In y (remove_first x l) -> In y l.
Proof.
  induction l as [|z r IH]; simpl; auto.
  destruct (z =? x); simpl; intuition.
Qed.

Lemma remove_first_NoDup x l :
  NoDup l -> NoDup (remove_first x l) /\ ~ In x (remove_first x l).
Proof.
  induction 1 as [|y r Hy Hr IH]; simpl.
  - split; [constructor | easy].
  - destruct (String.eqb_spec y x) as [->|Hne].
    + auto.
    + destruct IH as [IH1 IH2]. split.
      * constructor; auto. intros H. apply Hy.
        eapply remove_first_subset; eauto.
      * simpl. intros [E|H]; [congruence | auto].
Qed.




Lemma toggle_NoDup x l : NoDup l -> NoDup (toggle x l).
Proof.
  intros Hnd. unfold toggle. destruct (mem x l) eqn:E.
  - now apply remove_first_NoDup.
  - apply mem_false in E.
    apply (Permutation_NoDup (Permutation_cons_append l x)).
    now constructor.
Qed.

Lemma find_update_first sid f l s :
  find (has_id sid) l = Some s -> s_id (f s) = s_id s ->
  find (has_id sid) (update_first (has_id sid) f l) = Some (f s).
Proof.
  induction l as [|x r IH]; simpl; [discriminate|].
  destruct (has_id sid x) eqn:E.
  - intros [= ->] Hf. simpl. unfold has_id in *. now rewrite Hf, E.
  - intros Hs Hf. simpl. rewrite E. auto.
Qed.

Lemma find_with_session st sid f s :
  find (has_id sid) (sessions st) = Some s -> s_id (f s) = s_id s ->
  find (has_id sid) (sessions (with_session st sid f)) = Some (f s).
Proof.
  intros Hs Hf. unfold with_session. rewrite Hs. simpl.
  now apply find_update_first.
Qed.




(** The sessions the store creates have no tag, and toggling and clearing
    keep the tag list free of duplicates. *)
Lemma tags_NoDup_kept st sid s x t :
  find (has_id sid) (sessions st) = Some s -> NoDup (related_images s) ->
  (exists s1, find (has_id sid) (sessions (toggleTaggedImage st sid x t)) = Some s1
              /\ NoDup (related_images s1)) /\
  NoDup (related_images (createNewSession None x t)).
Proof.
  intros Hs Hnd. split.
  - eexists. split.
    + apply find_with_session; [exact Hs | reflexivity].
    + simpl. now apply toggle_NoDup.
  - constructor.
Qed.

(** *** The settlement flags *)

Lemma flag_step_refl a : flag_step a a.
Proof. now left. Qed.

Lemma flag_step_keeps_true a b : flag_step a b -> a = Some true -> b = Some true.
Proof. intros [->| ->]; auto. Qed.

Lemma msg_step_refl m : msg_step m m.
Proof. unfold msg_step. auto 10 using flag_step_refl. Qed.

Lemma msg_step_set_typed m : msg_step m (set_typed (Some true) m).
Proof.
  unfold msg_step, flag_step. simpl. auto 10.
Qed.

Lemma msg_step_set_animated m : msg_step m (set_animated (Some true) m).
Proof.
  unfold msg_step, flag_step. simpl. auto 10.
Qed.

Lemma Forall2_refl {A : Type} (R : A -> A -> Prop) l :
  (forall x, R x x) -> Forall2 R l l.
Proof. intros H. induction l; constructor; auto. Qed.

Lemma Forall2_update_first {A : Type} (R : A -> A -> Prop) p f (l : list A) :
  (forall x, R x x) -> (forall x, R x (f x)) ->
  Forall2 R l (update_first p f l).
Proof.
  intros Hr Hf. induction l as [|x r IH]; simpl; [constructor|].
  destruct (p x); constructor; auto using Forall2_refl.
Qed.

Lemma sess_step_refl s : sess_step s s.
Proof.
  split; auto. exists (messages s), []. rewrite app_nil_r.
  split; auto using Forall2_refl, msg_step_refl.
Qed.

(** A session function that keeps the id and appends to the messages. *)
Lemma sess_step_append s s' added :
  s_id s' = s_id s -> messages s' = messages s ++ added ->
  sess_step s s'.
Proof.
  intros Hi Hm. split; auto. exists (messages s), added.
  split; auto using Forall2_refl, msg_step_refl.
Qed.

Lemma sess_step_marked s s' p g :
  s_id s' = s_id s ->
  messages s' = update_first p g (messages s) ->
  (forall m, msg_step m (g m)) ->
  sess_step s s'.
Proof.
  intros Hi Hm Hg. split; auto.
  exists (update_first p g (messages s)), []. rewrite app_nil_r.
  split; auto using Forall2_update_first, msg_step_refl.
Qed.

Lemma with_session_steps st sid f :
  (forall s, sess_step s (f s)) ->
  Forall2 sess_step (sessions st) (sessions (with_session st sid f)).
Proof.
  intros Hf. unfold with_session.
  destruct (find (has_id sid) (sessions st)); simpl.
  - auto using Forall2_update_first, sess_step_refl.
  - auto using Forall2_refl, sess_step_refl.
Qed.

(** C2. Whatever the operation, the sessions after it are the sessions
    before it with a session without message added in front or at the end,
    or with the sessions of one id taken out, or are the same sessions, in
    place, where each message is still there and differs from what it was at
    most by a flag ([typed], [animated]) that has become [true]; messages
    may have been appended. So no operation turns a flag back. *)
Theorem flags_monotonic st a :
  (exists s, messages s = [] /\
     (sessions (reducer st a) = s :: sessions st \/
      sessions (reducer st a) = sessions st ++ [s])) \/
  (exists id,
     sessions (reducer st a) =
       filter (fun s => negb (s_id s =? id)) (sessions st)) \/
  Forall2 sess_step (sessions st) (sessions (reducer st a)).
Proof.
  destruct a; simpl;
    try (right; right; apply with_session_steps; intros s;
         first [ apply sess_step_append with (added := []);
                 [reflexivity | simpl; now rewrite app_nil_r]
               | eapply sess_step_append; [reflexivity | reflexivity] ]).
  - unfold bootstrapFirstSession. destruct (_ && _).
    + left. eexists. split; [|right; reflexivity]. reflexivity.
    + right. right. auto using Forall2_refl, sess_step_refl.
  - left. eexists. split; [|left; reflexivity]. reflexivity.
  - right. right. unfold switchSession.
    destruct (find _ _); simpl; auto using Forall2_refl, sess_step_refl.
  - right. left. exists id. reflexivity.
  - right. right. apply with_session_steps. intros s.
    apply sess_step_append with (added := []).
    + destruct prev_context_, was_context_valid_old_, is_follow_up_old_,
        related_images_, title_; reflexivity.
    + rewrite app_nil_r.
      destruct prev_context_, was_context_valid_old_, is_follow_up_old_,
        related_images_, title_; reflexivity.
  - right. right. apply with_session_steps. intros s.
    eapply sess_step_marked;
      [reflexivity | reflexivity | apply msg_step_set_typed].
  - right. right. apply with_session_steps. intros s.
    eapply sess_step_marked;
      [reflexivity | reflexivity | apply msg_step_set_animated].
Qed.

(** In the third case a flag that is [true] at some place is [true] at the
    same place afterwards. *)
Lemma sess_step_keeps_true s s' j m :
  sess_step s s' -> nth_error (messages s) j = Some m ->
  exists m', nth_error (messages s') j = Some m' /\ msg_step m m' /\
    (typed m = Some true -> typed m' = Some true) /\
    (animated m = Some true -> animated m' = Some true).
Proof.
  intros (_ & old & added & Hm & HF) Hj. rewrite Hm. clear Hm.
  revert j Hj. induction HF as [|x y l l' Hxy _ IH]; intros [|j] Hj;
    simpl in *; try discriminate.
  - injection Hj as ->. exists y.
    pose proof Hxy as (_ & _ & _ & _ & _ & Ht & Ha).
    split; [reflexivity|]. split; [exact Hxy|].
    split; intros E; eapply flag_step_keeps_true; eassumption.
  - auto.
Qed.

Lemma flag_step_trans a b c : flag_step a b -> flag_step b c -> flag_step a c.
Proof. unfold flag_step. intros [->| ->] [->| ->]; auto. Qed.

Lemma msg_step_trans m1 m2 m3 :
  msg_step m1 m2 -> msg_step m2 m3 -> msg_step m1 m3.
Proof.
  intros (A1 & A2 & A3 & A4 & A5 & A6 & A7) (B1 & B2 & B3 & B4 & B5 & B6 & B7).
  unfold msg_step. repeat split; try congruence;
    eapply flag_step_trans; eassumption.
Qed.

Lemma Forall2_trans {A : Type} (R : A -> A -> Prop) l1 :
  (forall x y z, R x y -> R y z -> R x z) ->
  forall l2 l3, Forall2 R l1 l2 -> Forall2 R l2 l3 -> Forall2 R l1 l3.
Proof.
  intros HR. induction l1 as [|x l1 IH]; intros l2 l3 H12 H23;
    inversion H12; subst; inversion H23; subst; constructor; eauto.
Qed.

Lemma sess_step_trans s1 s2 s3 :
  sess_step s1 s2 -> sess_step s2 s3 -> sess_step s1 s3.
Proof.
  intros (I1 & o1 & a1 & M1 & F1) (I2 & o2 & a2 & M2 & F2).
  split; [congruence|].
  rewrite M1 in F2. apply Forall2_app_inv_l in F2 as (p & q & Fp & Fq & ->).
  exists p, (q ++ a2). split.
  - now rewrite app_assoc.
  - eapply Forall2_trans; eauto using msg_step_trans.
Qed.

(** Along a run of operations that neither create nor remove a session the
    same holds from the first state to the last: a flag once [true] is
    [true] ever after. *)
Lemma flags_monotonic_run l : forall st,
  Forall (fun a => match a with
                   | BootstrapFirstSession _ _ | AddSession _ _ _
                   | RemoveSession _ => False
                   | _ => True
                   end) l ->
  Forall2 sess_step (sessions st) (sessions (run st l)).
Proof.
  induction l as [|a l IH]; intros st Hl; simpl.
  - auto using Forall2_refl, sess_step_refl.
  - inversion Hl as [|? ? Ha Hl']; subst.
    eapply Forall2_trans; [exact sess_step_trans | | apply IH, Hl'].
    destruct a; try contradiction; simpl;
      try (apply with_session_steps; intros s;
           first [ apply sess_step_append with (added := []);
                   [reflexivity | simpl; now rewrite app_nil_r]
                 | eapply sess_step_append; [reflexivity | reflexivity] ]).
    + unfold switchSession.
      destruct (find _ _); simpl; auto using Forall2_refl, sess_step_refl.
    + apply with_session_steps. intros s.
      apply sess_step_append with (added := []).
      * destruct prev_context_, was_context_valid_old_, is_follow_up_old_,
          related_images_, title_; reflexivity.
      * rewrite app_nil_r.
        destruct prev_context_, was_context_valid_old_, is_follow_up_old_,
          related_images_, title_; reflexivity.
    + apply with_session_steps. intros s.
      eapply sess_step_marked;
        [reflexivity | reflexivity | apply msg_step_set_typed].
    + apply with_session_steps. intros s.
      eapply sess_step_marked;
        [reflexivity | reflexivity | apply msg_step_set_animated].
Qed.

End StoreFacts.

(** ** Properties of [sendMessage] *)

Module ChatAppFacts.
Import Store Props Examples ChatApp StoreFacts.

(** C1. When the session the send is addressed to has [loading] set, as the
    component reads it, [sendMessage] returns at once: the store is the one
    it was, no action has been dispatched to it and no request is made. *)
Theorem send_while_loading chat st sid text env s :
  find (has_id sid) (sessions chat) = Some s ->
  truthy (loading s) = true ->
  sendMessage chat st sid text env = (st, None).
Proof.
  intros Hs Hl. unfold sendMessage. now rewrite Hs, Hl.
Qed.

Lemma send_while_loading_witness :
  sendMessage waiting waiting "s1" "hello" (mkSendEnv 3 4 "m1" 5 6)
  = (waiting, None).
Proof.
  eapply send_while_loading; reflexivity.
Defined.

(** A send to a session that is not loading does change the store and makes
    a request: the guard is what rejects. *)
Lemma send_when_idle chat st sid text env s :
  find (has_id sid) (sessions chat) = Some s ->
  truthy (loading s) = false ->
  exists p, snd (sendMessage chat st sid text env) = Some p /\
            query p = text /\
            message_history p = previousMessageHistory s.
Proof.
  intros Hs Hl. unfold sendMessage. rewrite Hs, Hl. simpl. eauto.
Qed.

(** *** Resolution of the tagged images *)

Lemma find_app {A : Type} (p : A -> bool) l1 l2 :
  find p (l1 ++ l2) =
    match find p l1 with Some x => Some x | None => find p l2 end.
Proof.
  induction l1 as [|x r IH]; simpl; auto. now destruct (p x).
Qed.

Lemma image_eta i : {| path := path i; data := data i |} = i.
Proof. now destruct i. Qed.

(** The loop of [sendMessage] finds the first image with the path among the
    images of the messages taken in order. *)
Lemma resolve_image_first ms p :
  resolve_image ms p =
    match first_image ms p with
    | Some img => img
    | None => {| path := ""; data := "" |}
    end.
Proof.
  unfold first_image. induction ms as [|m rest IH]; simpl; auto.
  rewrite find_app.
  destruct (images m) as [|i l] eqn:E; simpl; auto.
  destruct (path i =? p); [apply image_eta|].
  destruct (find _ l); [apply image_eta | exact IH].
Qed.

Lemma first_image_path ms p img :
  first_image ms p = Some img -> path img = p.
Proof.
  unfold first_image. intros H. apply find_some in H as [_ H].
  now apply String.eqb_eq.
Qed.

Lemma userImages_resolved session :
  userImages session = resolved (messages session) (related_images session).
Proof.
  unfold userImages, resolved.
  destruct (related_images session) as [|t0 tags0] eqn:E; [reflexivity|].
  change (0 <? List.length (t0 :: tags0))%nat with true. cbv iota.
  generalize (t0 :: tags0). clear. intros tags.
  induction tags as [|p tags IH]; simpl; auto.
  rewrite resolve_image_first.
  destruct (first_image (messages session) p) as [img|] eqn:F.
  - rewrite (first_image_path _ _ _ F).
    destruct (truthy_str p); simpl; [rewrite image_eta|]; now rewrite IH.
  - simpl. exact IH.
Qed.

(** C7, as the code has it. A send to a session that is not loading puts
    all the tagged ids, as they are, in [related_images] of the request. The
    images attached to the user message are those the tagged ids resolve
    to, each id giving the first image with that path in the messages
    taken in order; an id that resolves to nothing (and the empty id) gives
    no image and raises no error. The user message is appended to the
    session of the store and the tags of that session are cleared. *)
Theorem send_resolves_tags chat st sid text env session :
  find (has_id sid) (sessions chat) = Some session ->
  truthy (loading session) = false ->
  exists p,
    snd (sendMessage chat st sid text env) = Some p /\
    p_related_images p = related_images session /\
    userImages session
      = resolved (messages session) (related_images session) /\
    forall s0, find (has_id sid) (sessions st) = Some s0 ->
      exists s3,
        find (has_id sid) (sessions (fst (sendMessage chat st sid text env)))
          = Some s3 /\
        related_images s3 = [] /\
        messages s3 =
          messages s0 ++
            [{| m_id := user_msg_id env; role := user; content := text;
                images := userImages session; animated := Some false;
                typed := None; m_createdAt := t_user_msg env |}].
Proof.
  intros Hs Hl. unfold sendMessage. rewrite Hs, Hl. cbv zeta.
  eexists. split; [reflexivity|]. split; [reflexivity|].
  split; [apply userImages_resolved|].
  intros s0 H0. cbn [fst reducer].
  unfold addUserMessage, clearTaggedImages, setSessionLoading.
  eexists. split.
  - apply find_with_session; [|reflexivity].
    apply find_with_session; [|reflexivity].
    apply find_with_session; [exact H0 | reflexivity].
  - split; reflexivity.
Qed.

Lemma send_resolves_tags_witness :
  exists p,
    snd (sendMessage with_ghost with_ghost "s1" "hi" (mkSendEnv 6 7 "m2" 8 9))
      = Some p /\
    p_related_images p = ["ghost"; "p1"].
Proof.
  destruct (send_resolves_tags with_ghost with_ghost "s1" "hi"
              (mkSendEnv 6 7 "m2" 8 9) _ eq_refl eq_refl)
    as (p & H1 & H2 & _).
  exists p. split; [exact H1 | exact H2].
Defined.

(** C7 as stated fails: a tagged id that resolves to no image is still in
    [related_images] of the request. *)
Lemma unresolved_tag_is_sent :
  ~ (forall chat st sid text env session p x,
       find (has_id sid) (sessions chat) = Some session ->
       snd (sendMessage chat st sid text env) = Some p ->
       In x (related_images session) ->
       first_image (messages session) x = None ->
       ~ In x (p_related_images p)).
Proof.
  intros H.
  refine (H with_ghost with_ghost "s1" "hi" (mkSendEnv 6 7 "m2" 8 9)
            _ _ "ghost" eq_refl eq_refl _ eq_refl _); left; reflexivity.
Qed.

End ChatAppFacts.

(** ** Properties of the reveal scheduler *)

Module TypingFacts.
Import Store Typing.

Lemma baseDelay_range c : (8 <= baseDelay c <= 100)%Q.
Proof.
  unfold baseDelay.
  repeat match goal with |- context [if ?b then _ else _] => destruct b end;
    split; unfold Qle; simpl; lia.
Qed.

Lemma dynamicDelay_bounds c r :
  (0 <= r < 1)%Q ->
  (baseDelay c - baseDelay c * (1 # 8) <= dynamicDelay c r
   /\ dynamicDelay c r < baseDelay c + baseDelay c * (1 # 8))%Q.
Proof.
  intros [H0 H1]. unfold dynamicDelay.
  pose proof (baseDelay_range c) as [Hd _].
  set (d := baseDelay c) in *. split; nra.
Qed.

Lemma dynamicDelay_lt_113 c r : (0 <= r < 1)%Q -> (dynamicDelay c r < 113)%Q.
Proof.
  intros Hr. pose proof (dynamicDelay_bounds c r Hr) as [_ H].
  pose proof (baseDelay_range c) as [_ Hd]. lra.
Qed.

Lemma substring_all s n :
  (String.length s <= n)%nat -> substring 0 n s = s.
Proof.
  revert n. induction s as [|a s IH]; intros [|n] Hn; simpl in *;
    try reflexivity; try lia.
  f_equal. apply IH. lia.
Qed.



(** *** Completion of the reveal *)

Section Reveal.

Variable m : ChatMessage.
Variable sessionId : string.
Variable clock : Clock.

Hypothesis random_range : forall k, (0 <= snd (clock k) < 1)%Q.
Hypothesis clock_monotone : forall k, (fst (clock k) <= fst (clock (S k)))%Q.
Hypothesis clock_unbounded : forall B : Q, exists k, (B <= fst (clock k))%Q.

Lemma clock_monotone_le j k :
  (j <= k)%nat -> (fst (clock j) <= fst (clock k))%Q.
Proof.
  induction 1 as [|k _ IH]; [apply Qle_refl|].
  eapply Qle_trans; [exact IH | apply clock_monotone].
Qed.

Lemma frames_from_add k n1 n2 h :
  frames_from m sessionId clock k (n1 + n2) h =
  frames_from m sessionId clock (k + n1) n2
    (frames_from m sessionId clock k n1 h).
Proof.
  revert k h. induction n1 as [|n1 IH]; intros k h; simpl.
  - now rewrite Nat.add_0_r.
  - rewrite IH. now rewrite Nat.add_succ_r.
Qed.

(** One frame of a running loop: it waits, or reveals a character and goes
    on, or ends the loop. *)
Lemma frame_cases k h :
  revealing h ->
  let h' := handle m sessionId h (Frame (fst (clock k)) (snd (clock k))) in
  (revealing h' /\ charIndex h' = charIndex h /\
   prevTime h' = prevTime h /\
   (fst (clock k) - prevTime h < 113)%Q) \/
  (revealing h' /\ charIndex h' = S (charIndex h) /\
   (charIndex h' < String.length (content m))%nat) \/
  finished m h'.
Proof.
  intros (Hraf & Ht & Hf & Hd). simpl. rewrite Hraf. unfold step.
  pose proof (dynamicDelay_lt_113 (currentChar m h) _ (random_range k)) as Hlt.
  destruct (Qle_bool _ _) eqn:E.
  - destruct (S (charIndex h) <? String.length (content m))%nat eqn:L.
    + right. left. apply Nat.ltb_lt in L. unfold revealing. simpl. auto 10.
    + right. right. unfold finished. simpl. rewrite Ht. auto 10.
  - destruct (charIndex h <? String.length (content m))%nat eqn:L.
    + left. unfold revealing. simpl. repeat split; auto.
      destruct (Qlt_le_dec (fst (clock k) - prevTime h) 113) as [|Hge]; auto.
      exfalso. assert (Qle_bool (dynamicDelay (currentChar m h) (snd (clock k)))
                         (fst (clock k) - prevTime h) = true).
      { apply Qle_bool_iff. lra. }
      congruence.
    + right. right. unfold finished. simpl. rewrite Ht. auto 10.
Qed.

(** A running loop reveals its next character, or ends, after finitely many
    frames. *)
Lemma eventually_advances k h :
  revealing h ->
  exists j, let h' := frames_from m sessionId clock k j h in
    (revealing h' /\ charIndex h' = S (charIndex h) /\
     (charIndex h' < String.length (content m))%nat) \/
    finished m h'.
Proof.
  intros Hrev.
  destruct (clock_unbounded (prevTime h + 113)%Q) as [K0 HK0].
  assert (exists K, (k <= K)%nat /\ (prevTime h + 113 <= fst (clock K))%Q)
    as (K & HkK & HK).
  { exists (Nat.max k K0). split; [lia|].
    eapply Qle_trans; [exact HK0|]. apply clock_monotone_le. lia. }
  clear K0 HK0.
  remember (K - k)%nat as d eqn:Hd.
  revert k h Hrev HkK HK Hd. induction d as [|d IH]; intros k h Hrev HkK HK Hd.
  - assert (K = k) by lia. subst K.
    destruct (frame_cases k h Hrev) as [(_ & _ & _ & Hlt)|H].
    + exfalso. lra.
    + exists 1%nat. exact H.
  - destruct (frame_cases k h Hrev) as [(Hrev' & Hc & Hp & _)|H].
    + destruct (IH (S k) _ Hrev') as [j Hj]; try lia.
      * now rewrite Hp.
      * exists (S j).
        change (frames_from m sessionId clock k (S j) h)
          with (frames_from m sessionId clock (S k) j
                  (handle m sessionId h
                     (Frame (fst (clock k)) (snd (clock k))))).
        cbv zeta in Hj |- *. rewrite Hc in Hj. exact Hj.
    + exists 1%nat. exact H.
Qed.

Lemma eventually_finished n : forall k h,
  revealing h ->
  (String.length (content m) - charIndex h <= n)%nat ->
  exists j, finished m (frames_from m sessionId clock k j h).
Proof.
  induction n as [|n IH]; intros k h Hrev Hn;
    destruct (eventually_advances k h Hrev) as [j [(Hrev' & Hc & Hl)|Hfin]];
    try (exists j; exact Hfin).
  - exfalso. lia.
  - destruct (IH (k + j)%nat _ Hrev') as [j' Hj']; [lia|].
    exists (j + j')%nat. now rewrite frames_from_add.
Qed.

(** Once the mark has been dispatched no event dispatches again, and the
    event leaves the loop stopped and the text as it is. *)
Lemma guard_holds h e :
  dispatchedMarkRef h = true ->
  dispatchedMarkRef (handle m sessionId h e) = true /\
  dispatched (handle m sessionId h e) = dispatched h.
Proof.
  intros Hg. destruct e; simpl.
  - destruct (rafRef h); auto. unfold step.
    now destruct (_ <? _)%nat.
  - destruct (settleTimers h); auto. unfold onSettleTimeout. simpl.
    destruct (0 <? _)%nat; simpl; auto. now rewrite Hg.
  - destruct (gridRendered m h); auto. unfold onAnimationComplete.
    now rewrite Hg.
  - auto.
Qed.

Lemma settled_stays h es :
  dispatchedMarkRef h = true -> rafRef h = false ->
  let h' := fold_left (handle m sessionId) es h in
  dispatched h' = dispatched h /\ typedText h' = typedText h.
Proof.
  revert h. induction es as [|e es IH]; intros h Hg Hr; simpl; auto.
  destruct (guard_holds h e Hg) as [Hg' Hd'].
  assert (rafRef (handle m sessionId h e) = false /\
          typedText (handle m sessionId h e) = typedText h) as [Hr' Ht'].
  { destruct e; simpl.
    - now rewrite Hr.
    - destruct (settleTimers h); auto. unfold onSettleTimeout. simpl.
      destruct (0 <? _)%nat; simpl; auto. rewrite Hg. auto.
    - destruct (gridRendered m h); auto. unfold onAnimationComplete.
      rewrite Hg. auto.
    - auto. }
  destruct (IH _ Hg' Hr') as [H1 H2]. simpl in H1, H2.
  rewrite H1, H2. auto.
Qed.

(** C3. For a model message not yet typed and without image, mounted at
    time [now], on a clock whose timestamps never decrease and grow beyond
    every bound: after some number of frames the loop has ended, the typed
    text is the whole content, and nothing has been dispatched yet; when the
    timer then fires, [markMessageTyped] is dispatched for this message,
    once; whatever events follow (frames, timers, completions of the image
    animation, the cleanup), the dispatches remain that single one and the
    typed text remains the content. *)
Theorem reveal_completes now :
  role m = model -> truthy (typed m) = false -> images m = [] ->
  exists n,
    let h := reveal m sessionId now clock n in
    finished m h /\
    forall atBottom es,
      let h1 := handle m sessionId h (SettleTimeout atBottom) in
      let h2 := fold_left (handle m sessionId) es h1 in
      typedText h1 = content m /\
      dispatched h1 = [MarkMessageTyped sessionId (m_id m)] /\
      dispatchedMarkRef h1 = true /\
      typedText h2 = content m /\
      dispatched h2 = [MarkMessageTyped sessionId (m_id m)].
Proof.
  intros Hrole Htyped Himg.
  assert (Hnew : isNew m = true).
  { unfold isNew, isUser. now rewrite Hrole, Htyped. }
  assert (Hrev : revealing (effect m now (init m))).
  { unfold effect. rewrite Hnew. simpl. unfold revealing. simpl. auto. }
  destruct (eventually_finished (String.length (content m)) 0 _ Hrev)
    as [n Hfin]; [lia|].
  exists n. unfold reveal. split; [exact Hfin|].
  intros atBottom es.
  set (h := frames_from m sessionId clock 0 n (effect m now (init m))) in *.
  destruct Hfin as (Hraf & Htext & _ & Htimer & Hflag & Hdisp).
  assert (H1 : handle m sessionId h (SettleTimeout atBottom) =
               mkHook (typedText h) (isTypingComplete h) (showImages h)
                 (charIndex h) (prevTime h) (rafRef h) 0 true
                 [MarkMessageTyped sessionId (m_id m)]
                 (if atBottom then S (scrolls h) else scrolls h)).
  { simpl. rewrite Htimer. unfold onSettleTimeout. rewrite Himg. simpl.
    rewrite Hflag, Hdisp, Htimer. reflexivity. }
  rewrite H1. cbv zeta.
  destruct (settled_stays
              (mkHook (typedText h) (isTypingComplete h) (showImages h)
                 (charIndex h) (prevTime h) (rafRef h) 0 true
                 [MarkMessageTyped sessionId (m_id m)]
                 (if atBottom then S (scrolls h) else scrolls h)) es
              eq_refl Hraf) as [E1 E2].
  simpl in E1, E2. rewrite E1, E2. simpl. auto.
Qed.

End Reveal.

Lemma steady_clock_unbounded (B : Q) :
  exists k, (B <= fst (steady_clock k))%Q.
Proof.
  exists (Z.to_nat (Qceiling B)). unfold steady_clock. simpl.
  eapply Qle_trans; [apply Qle_ceiling|].
  rewrite <- Zle_Qle. lia.
Qed.

Lemma reveal_completes_witness :
  exists n,
    typedText (reveal hi_message "s1" 0 steady_clock n) = "Hi." /\
    dispatched
      (handle hi_message "s1" (reveal hi_message "s1" 0 steady_clock n)
         (SettleTimeout true))
    = [MarkMessageTyped "s1" "m1"].
Proof.
  assert (Hr : forall k, (0 <= snd (steady_clock k) < 1)%Q).
  { intros k. split; unfold Qle, Qlt; simpl; lia. }
  assert (Hm : forall k,
             (fst (steady_clock k) <= fst (steady_clock (S k)))%Q).
  { intros k. unfold steady_clock. simpl. rewrite <- Zle_Qle. lia. }
  destruct (reveal_completes hi_message "s1" steady_clock Hr Hm
              steady_clock_unbounded 0 eq_refl eq_refl eq_refl)
    as (n & Hfin & Hafter).
  exists n. split.
  - apply Hfin.
  - apply (Hafter true []).
Defined.

End TypingFacts.

(** ** Properties of the auto-follow controller *)

Module AutoScrollFacts.
Import Scroll AutoScroll.

Lemma clearTimeout_inv s : inv s -> clearTimeout (timeout s) (pending s) = [].
Proof.
  intros [[E|(id & E & T)] _]; rewrite E.
  - unfold clearTimeout. now destruct (timeout s).
  - rewrite T. simpl. now rewrite Pos.eqb_refl.
Qed.

Lemma onTimer_pending target s :
  pending (onTimer target s) = pending s /\
  timeout (onTimer target s) = timeout s /\
  nextTimer (onTimer target s) = nextTimer s.
Proof.
  unfold onTimer. destruct (enabledRef s); auto.
  destruct (scrollIntoView target); auto.
Qed.

Lemma handle_inv s e : inv s -> inv (handle s e).
Proof.
  intros Hinv. pose proof (clearTimeout_inv s Hinv) as Hc.
  destruct e; simpl.
  - exact Hinv.
  - destruct (observing s); auto. unfold onResize.
    destruct (enabledRef s); simpl; auto. rewrite Hc. simpl. split.
    + right. eexists. split; reflexivity.
    + simpl. intros id [<-|[]]. apply Pos.lt_succ_diag_r.
  - destruct (existsb (Pos.eqb id) (pending s)) eqn:E; auto.
    destruct (onTimer_pending target
                (mkScroller (enabledRef s) (observing s) (timeout s)
                   (filter (fun x => negb (Pos.eqb x id)) (pending s))
                   (nextTimer s) (scrolled s))) as (Hp & Ht & Hn).
    unfold inv. rewrite Hp, Hn. simpl.
    destruct Hinv as [[P|(id' & P & T)] Hlt].
    + rewrite P in E. discriminate.
    + rewrite P in E |- *. simpl in E |- *.
      rewrite orb_false_r in E. apply Pos.eqb_eq in E. subst id'.
      rewrite Pos.eqb_refl. simpl. split; [now left | easy].
  - unfold inv. simpl. rewrite Hc. split; [now left | easy].
Qed.

Lemma run_inv s es : inv s -> inv (run s es).
Proof.
  unfold run. revert s. induction es as [|e es IH]; intros s H; simpl; auto.
  apply IH. now apply handle_inv.
Qed.

Lemma mount_inv enabled : inv (mount enabled).
Proof. split; [now left | easy]. Qed.

(** C9. In every state [s] the hook reaches after its mount:
    - when a timer fires while the flag is unset, no scroll command is
      issued;
    - a timer that was set while the flag was set, and fires after the flag
      has been unset, issues no scroll command;
    - a scroll command is issued only by a pending timer that fires while
      the flag is set;
    - a size-change notification that schedules a timer (the flag is set)
      has cancelled the pending one first: the new timer is the only one
      pending; so at most one timer is pending at any time. *)
Theorem fire_reads_current_flag enabled es :
  let s := run (mount enabled) es in
  (forall id target, enabledRef s = false ->
     scrolled (handle s (Fire id target)) = scrolled s) /\
  (forall target, enabledRef s = true -> observing s = true ->
     let s' := run s [Resize; SetEnabled false] in
     In (nextTimer s) (pending s') /\
     scrolled (handle s' (Fire (nextTimer s) target)) = scrolled s) /\
  (forall id target, scrolled (handle s (Fire id target)) <> scrolled s ->
     enabledRef s = true /\ In id (pending s)) /\
  (enabledRef s = true -> observing s = true ->
     pending (handle s Resize) = [nextTimer s] /\
     ~ In (nextTimer s) (pending s)) /\
  (List.length (pending s) <= 1)%nat.
Proof.
  intros s. assert (Hinv : inv s) by (apply run_inv, mount_inv).
  assert (Hfire : forall id target, enabledRef s = false ->
            scrolled (handle s (Fire id target)) = scrolled s).
  { intros id target He. simpl.
    destruct (existsb _ _); auto. unfold onTimer. simpl. now rewrite He. }
  pose proof (clearTimeout_inv s Hinv) as Hc.
  split; [exact Hfire|]. split.
  { intros target He Ho. cbv zeta. unfold run. simpl.
    rewrite Ho. unfold onResize. rewrite He. simpl. split.
    - apply in_or_app. right. now left.
    - destruct (existsb _ _); reflexivity. }
  split.
  { intros id target H. split.
    - destruct (enabledRef s) eqn:E; [reflexivity|].
      exfalso. apply H. now apply Hfire.
    - simpl in H. destruct (existsb (Pos.eqb id) (pending s)) eqn:E.
      + apply existsb_exists in E as (x & Hx & Ex).
        apply Pos.eqb_eq in Ex. now subst.
      + now contradiction H. }
  split.
  { intros He Ho. split.
    - simpl. rewrite Ho. unfold onResize. rewrite He. simpl. now rewrite Hc.
    - intros Hin. destruct Hinv as [_ Hlt]. apply Hlt in Hin.
      now apply Pos.lt_irrefl in Hin. }
  destruct Hinv as [[E|(id & E & _)] _]; rewrite E; simpl; lia.
Qed.

Lemma fire_reads_current_flag_witness :
  scrolled
    (handle (run (run (mount true) [Resize]) [Resize; SetEnabled false])
       (Fire 2 (Some (mkElement 500 0 100))))
  = [].
Proof.
  destruct (fire_reads_current_flag true [Resize]) as (_ & H & _).
  exact (proj2 (H (Some (mkElement 500 0 100)) eq_refl eq_refl)).
Defined.

(** A notification that arrives while the flag is unset does nothing: it
    neither cancels the pending timer nor schedules one. *)
Lemma resize_while_disabled s :
  enabledRef s = false -> handle s Resize = s.
Proof.
  intros H. simpl. destruct (observing s); auto.
  unfold onResize. now rewrite H.
Qed.

End AutoScrollFacts.

(** ** Further properties of the store *)

Module StoreMore.
Import Store Props Examples StoreFacts.

(** X1. [bootstrapFirstSession] is idempotent, whatever [nanoid()] and
    [Date.now()] return at the second call, and it only ever changes a state
    without session. *)
Theorem bootstrap_idempotent st n1 t1 n2 t2 :
  bootstrapFirstSession (bootstrapFirstSession st n1 t1) n2 t2
    = bootstrapFirstSession st n1 t1 /\
  (sessions st = [] \/ bootstrapFirstSession st n1 t1 = st).
Proof.
  split.
  - unfold bootstrapFirstSession at 2.
    destruct (negb (truthy_id (activeSessionId st))
              && (List.length (sessions st) =? 0)%nat) eqn:E.
    + unfold bootstrapFirstSession. simpl.
      rewrite length_app. simpl. rewrite Nat.add_1_r. simpl.
      rewrite andb_false_r. now rewrite E.
    + unfold bootstrapFirstSession. now rewrite E.
  - unfold bootstrapFirstSession.
    destruct (sessions st); simpl; auto. rewrite andb_false_r. auto.
Qed.

Lemma filter_filter {A : Type} (p : A -> bool) l :
  filter p (filter p l) = filter p l.
Proof.
  induction l as [|x r IH]; simpl; auto.
  destruct (p x) eqn:E; simpl; [rewrite E; f_equal|]; auto.
Qed.

(** X2. [removeSession] takes out every session with the given id and no
    other, after it no session has that id, and removing the same id again
    changes nothing. *)
Theorem removeSession_idempotent st id :
  (forall s, In s (sessions (removeSession st id)) <->
             In s (sessions st) /\ s_id s <> id) /\
  find (has_id id) (sessions (removeSession st id)) = None /\
  removeSession (removeSession st id) id = removeSession st id.
Proof.
  assert (Hin : forall s, In s (sessions (removeSession st id)) <->
                          In s (sessions st) /\ s_id s <> id).
  { intros s. simpl. rewrite filter_In.
    destruct (String.eqb_spec (s_id s) id); simpl; intuition congruence. }
  split; [exact Hin|]. split.
  - apply find_has_id_none. intros H. apply in_map_iff in H as (s & E & Hs).
    apply Hin in Hs. tauto.
  - unfold removeSession. cbn [sessions activeSessionId].
    rewrite filter_filter. f_equal.
    destruct (activeSessionId st) as [a|]; auto.
    destruct (String.eqb_spec a id) as [->|Hne].
    + destruct (filter _ (sessions st)) as [|s l] eqn:F; auto.
      assert (Hs : In s (filter (fun s0 => negb (s_id s0 =? id)) (sessions st)))
        by (rewrite F; now left).
      apply filter_In in Hs as [_ Hs].
      destruct (String.eqb_spec (s_id s) id); [discriminate | reflexivity].
    + destruct (String.eqb_spec a id); congruence.
Qed.

(** X3. An operation addressed to a session, other than its removal, keeps
    the list of session ids as it is and leaves every session with another
    id untouched; unless it is [switchSession] it keeps the active id. *)
Theorem addressed_session_only st a sid :
  target a = Some sid ->
  (forall id, a <> RemoveSession id) ->
  Forall2 (fun s s' => s_id s' = s_id s /\ (s_id s <> sid -> s' = s))
    (sessions st) (sessions (reducer st a)) /\
  ((forall id, a <> SwitchSession id) ->
   activeSessionId (reducer st a) = activeSessionId st).
Proof.
  intros Ht Hrm.
  assert (Hw : forall f, (forall s, s_id (f s) = s_id s) ->
            Forall2 (fun s s' => s_id s' = s_id s /\ (s_id s <> sid -> s' = s))
              (sessions st) (sessions (with_session st sid f)) /\
            activeSessionId (with_session st sid f) = activeSessionId st).
  { intros f Hf. unfold with_session.
    destruct (find (has_id sid) (sessions st)); simpl.
    - split; auto. induction (sessions st) as [|x r IH]; simpl; [constructor|].
      unfold has_id at 1. destruct (String.eqb_spec (s_id x) sid).
      + constructor; [split; [apply Hf | congruence]|].
        apply Forall2_refl. auto.
      + constructor; auto.
    - split; auto. apply Forall2_refl. auto. }
  destruct a; simpl in Ht; try discriminate; injection Ht as ->; simpl;
    unfold addUserMessage, addModelMessage, setSessionMeta, setSessionStatus,
      toggleTaggedImage, clearTaggedImages, setSessionLoading,
      markMessageTyped, markMessageAnimated;
    try match goal with
        | |- context [with_session st sid ?f] =>
            destruct (Hw f) as [H1 H2];
            [ intros s;
              try (destruct prev_context_, was_context_valid_old_,
                     is_follow_up_old_, related_images_, title_);
              reflexivity
            | split; [exact H1 | intros _; exact H2] ]
        end.
  - unfold switchSession. destruct (find _ _); simpl.
    + split; [apply Forall2_refl; auto | intros H; now contradiction (H sid)].
    + split; [apply Forall2_refl; auto | auto].
  - now contradiction (Hrm sid).
Qed.

Lemma addressed_session_only_witness :
  Forall2 (fun s s' => s_id s' = s_id s /\ (s_id s <> "B" -> s' = s))
    (sessions abc) (sessions (reducer abc (ToggleTaggedImage "B" "p" 9))).
Proof.
  refine (proj1 (addressed_session_only abc (ToggleTaggedImage "B" "p" 9) "B"
                   eq_refl _)).
  intros id. discriminate.
Defined.

Lemma update_first_idem {A : Type} (p : A -> bool) (f : A -> A) l :
  (forall x, p x = true -> p (f x) = true) ->
  (forall x, p x = true -> f (f x) = f x) ->
  update_first p f (update_first p f l) = update_first p f l.
Proof.
  intros Hp Hf. induction l as [|x r IH]; simpl; auto.
  destruct (p x) eqn:E; simpl.
  - now rewrite Hp, Hf.
  - now rewrite E, IH.
Qed.

Lemma find_update_first_gen {A : Type} (p : A -> bool) (f : A -> A) l x :
  find p l = Some x -> p (f x) = true ->
  find p (update_first p f l) = Some (f x).
Proof.
  induction l as [|y r IH]; simpl; [discriminate|].
  destruct (p y) eqn:E.
  - intros [= ->] Hf. simpl. now rewrite Hf.
  - intros Hx Hf. simpl. rewrite E. auto.
Qed.

Lemma with_session_idem st sid f :
  (forall s, s_id (f s) = s_id s) -> (forall s, f (f s) = f s) ->
  with_session (with_session st sid f) sid f = with_session st sid f.
Proof.
  intros Hid Hf. unfold with_session at 2 3.
  destruct (find (has_id sid) (sessions st)) as [s|] eqn:E.
  - unfold with_session. simpl.
    rewrite (find_update_first sid f _ s E (Hid s)). f_equal.
    apply update_first_idem; auto.
    intros x Hx. unfold has_id in *. now rewrite Hid.
  - unfold with_session. now rewrite E.
Qed.

Lemma mark_idem (g : ChatMessage -> ChatMessage) mid l :
  (forall m, m_id (g m) = m_id m) -> (forall m, g (g m) = g m) ->
  update_first (msg_has_id mid) g (update_first (msg_has_id mid) g l)
  = update_first (msg_has_id mid) g l.
Proof.
  intros Hid Hg. apply update_first_idem; auto.
  intros m Hm. unfold msg_has_id in *. now rewrite Hid.
Qed.

(** X4. [markMessageTyped] and [markMessageAnimated] are idempotent. When
    the session and the message exist, [markMessageTyped] leaves that
    message with [typed = true] and the session with [loading = false]. *)
Theorem mark_typed_effect st sid mid :
  markMessageTyped (markMessageTyped st sid mid) sid mid
    = markMessageTyped st sid mid /\
  markMessageAnimated (markMessageAnimated st sid mid) sid mid
    = markMessageAnimated st sid mid /\
  forall s m,
    find (has_id sid) (sessions st) = Some s ->
    find (msg_has_id mid) (messages s) = Some m ->
    exists s',
      find (has_id sid) (sessions (markMessageTyped st sid mid)) = Some s' /\
      loading s' = Some false /\
      find (msg_has_id mid) (messages s') = Some (set_typed (Some true) m) /\
      List.length (messages s') = List.length (messages s).
Proof.
  split; [|split].
  - apply with_session_idem; [reflexivity|].
    intros s. simpl. unfold set_loading, set_messages. simpl.
    now rewrite mark_idem.
  - apply with_session_idem; [reflexivity|].
    intros s. simpl. unfold set_messages. simpl.
    now rewrite mark_idem.
  - intros s m Hs Hm. eexists. split.
    + apply find_with_session; [exact Hs | reflexivity].
    + simpl. split; [reflexivity|]. split.
      * apply find_update_first_gen; auto.
        apply find_some in Hm as [_ Hm]. exact Hm.
      * clear. induction (messages s) as [|x r IH]; simpl; auto.
        destruct (msg_has_id mid x); simpl; auto.
Qed.

Lemma mark_typed_effect_witness :
  exists s',
    find (has_id "s1")
      (sessions (markMessageTyped
                   (addModelMessage waiting "s1" "hi" None (Some false) "m1" 3 4)
                   "s1" "m1")) = Some s' /\
    loading s' = Some false.
Proof.
  destruct (mark_typed_effect
              (addModelMessage waiting "s1" "hi" None (Some false) "m1" 3 4)
              "s1" "m1") as (_ & _ & H).
  destruct (H _ _ eq_refl eq_refl) as (s' & H1 & H2 & _).
  exists s'. split; assumption.
Defined.

Lemma remove_first_other x y l :
  y <> x -> (In y (remove_first x l) <-> In y l).
Proof.
  intros Hne. split; [apply remove_first_subset|].
  induction l as [|z r IH]; simpl; auto.
  destruct (String.eqb_spec z x) as [->|Hz]; simpl; intuition congruence.
Qed.

(** X5. [toggleTaggedImage] on a session that exists changes the tags of
    that session only in the toggled path: every other path stays tagged or
    untagged as it was, an untagged path becomes tagged, and a path tagged
    once becomes untagged. The messages are not touched. *)
Theorem toggle_membership st sid s x t :
  find (has_id sid) (sessions st) = Some s ->
  exists s',
    find (has_id sid) (sessions (toggleTaggedImage st sid x t)) = Some s' /\
    (forall y, y <> x ->
       (In y (related_images s') <-> In y (related_images s))) /\
    (~ In x (related_images s) -> In x (related_images s')) /\
    (NoDup (related_images s) -> In x (related_images s) ->
     ~ In x (related_images s')) /\
    messages s' = messages s.
Proof.
  intros Hs. eexists. split.
  - apply find_with_session; [exact Hs | reflexivity].
  - simpl. unfold toggle. split; [|split; [|split; [|reflexivity]]].
    + intros y Hy. destruct (mem x (related_images s)).
      * now apply remove_first_other.
      * split; intros Hin.
        -- apply in_app_or in Hin as [Hin|[Hin|[]]]; congruence.
        -- apply in_or_app. now left.
    + intros Hx. apply mem_false in Hx. rewrite Hx.
      apply in_or_app. right. now left.
    + intros Hnd Hx. apply mem_In in Hx. rewrite Hx.
      now apply remove_first_NoDup.
Qed.

Lemma toggle_membership_witness :
  exists s',
    find (has_id "s1") (sessions (toggleTaggedImage tagged "s1" "p3" 9))
      = Some s' /\
    In "p3" (related_images s').
Proof.
  destruct (toggle_membership tagged "s1" _ "p3" 9 eq_refl)
    as (s' & H1 & _ & H2 & _).
  exists s'. split; [exact H1|]. apply H2.
  simpl. intros [H|[H|[]]]; discriminate H.
Defined.

End StoreMore.

(** ** Further properties of [sendMessage] *)

Module ChatAppMore.
Import Store Props Examples ChatApp StoreFacts ChatAppFacts.

(** The session of the store after the dispatches of a send. *)
Lemma send_session st sid text env s :
  find (has_id sid) (sessions st) = Some s ->
  truthy (loading s) = false ->
  exists s1,
    find (has_id sid) (sessions (fst (sendMessage st st sid text env)))
      = Some s1 /\
    loading s1 = Some true /\ related_images s1 = [] /\
    messages s1 =
      messages s ++
        [{| m_id := user_msg_id env; role := user; content := text;
            images := userImages s; animated := Some false;
            typed := None; m_createdAt := t_user_msg env |}] /\
    prev_context s1 = prev_context s /\ title s1 = title s /\
    was_context_valid_old s1 = was_context_valid_old s /\
    is_follow_up_old s1 = is_follow_up_old s /\ new s1 = new s.
Proof.
  intros Hs Hl. unfold sendMessage. rewrite Hs, Hl. cbv zeta.
  cbn [fst reducer].
  unfold addUserMessage, clearTaggedImages, setSessionLoading.
  eexists. split.
  - apply find_with_session; [|reflexivity].
    apply find_with_session; [|reflexivity].
    apply find_with_session; [exact Hs | reflexivity].
  - simpl. auto 10.
Qed.

(** X6. After a send that went through, the session is loading in the
    store: a second send that reads this state is rejected and leaves the
    store as it is, until something clears [loading]. *)
Theorem second_send_rejected st sid text env text2 env2 s :
  find (has_id sid) (sessions st) = Some s ->
  truthy (loading s) = false ->
  let st1 := fst (sendMessage st st sid text env) in
  snd (sendMessage st st sid text env) <> None /\
  sendMessage st1 st1 sid text2 env2 = (st1, None).
Proof.
  intros Hs Hl st1. split.
  - unfold sendMessage. rewrite Hs, Hl. discriminate.
  - destruct (send_session st sid text env s Hs Hl) as (s1 & F1 & L1 & _).
    fold st1 in F1. unfold sendMessage at 1. rewrite F1, L1. reflexivity.
Qed.

Lemma second_send_rejected_witness :
  let st1 :=
    fst (sendMessage tagged tagged "s1" "one" (mkSendEnv 4 5 "m1" 6 7)) in
  sendMessage st1 st1 "s1" "two" (mkSendEnv 8 9 "m2" 10 11) = (st1, None).
Proof.
  exact (proj2 (second_send_rejected tagged "s1" "one" (mkSendEnv 4 5 "m1" 6 7)
                  "two" (mkSendEnv 8 9 "m2" 10 11) _ eq_refl eq_refl)).
Defined.

Lemma update_first_app_skip {A : Type} (p : A -> bool) f l1 l2 :
  (forall x, In x l1 -> p x = false) ->
  update_first p f (l1 ++ l2) = l1 ++ update_first p f l2.
Proof.
  induction l1 as [|x r IH]; simpl; auto. intros H.
  rewrite (H x) by auto. f_equal. auto.
Qed.

(** X7. A whole exchange. A send to an idle session, a reply with an ok
    status, and the settling of the new model message (whose id is fresh in
    the session) leave the session with its former messages followed by the
    user message and the model message, the latter typed, with [loading]
    cleared, no tag, and the context and flags of the reply. *)
Theorem send_reply_settle st sid text env s d nid t1 t2 t3 :
  find (has_id sid) (sessions st) = Some s ->
  truthy (loading s) = false ->
  (forall m, In m (messages s) -> m_id m <> nid) ->
  user_msg_id env <> nid ->
  let st1 := fst (sendMessage st st sid text env) in
  let st2 := onReply st1 sid (Some d) nid t1 t2 t3 in
  let st3 := markMessageTyped st2 sid nid in
  exists s3 imgs,
    find (has_id sid) (sessions st3) = Some s3 /\
    messages s3 =
      messages s ++
        [{| m_id := user_msg_id env; role := user; content := text;
            images := userImages s; animated := Some false;
            typed := None; m_createdAt := t_user_msg env |};
         {| m_id := nid; role := model; content := or_empty (answer d);
            images := imgs; animated := None; typed := Some true;
            m_createdAt := t1 |}] /\
    loading s3 = Some false /\
    related_images s3 = [] /\
    prev_context s3 = or_empty (context d) /\
    was_context_valid_old s3 = was_context_valid d /\
    is_follow_up_old s3 = is_follow_up d /\
    title s3 = title s.
Proof.
  intros Hs Hl Hfresh Hu st1 st2 st3.
  destruct (send_session st sid text env s Hs Hl)
    as (s1 & F1 & L1 & R1 & M1 & P1 & T1 & _).
  fold st1 in F1.
  unfold st3, st2, onReply, markMessageTyped. cbn [reducer].
  unfold setSessionMeta, addModelMessage.
  eexists. eexists. split.
  - apply find_with_session; [|reflexivity].
    apply find_with_session; [|reflexivity].
    apply find_with_session; [exact F1 | reflexivity].
  - cbn. rewrite M1, R1, T1. split; [|auto 10].
    rewrite <- app_assoc. simpl.
    rewrite update_first_app_skip.
    + simpl. unfold msg_has_id. simpl.
      apply String.eqb_neq in Hu. rewrite Hu. simpl.
      rewrite String.eqb_refl. reflexivity.
    + intros m Hm. unfold msg_has_id. apply String.eqb_neq. auto.
Qed.

Lemma send_reply_settle_witness :
  exists s3,
    find (has_id "s1")
      (sessions
         (markMessageTyped
            (onReply
               (fst (sendMessage tagged tagged "s1" "hello"
                       (mkSendEnv 4 5 "m1" 6 7)))
               "s1" (Some (mkReply (Some "hi") None None true false))
               "m2" 8 9 10)
            "s1" "m2")) = Some s3 /\
    loading s3 = Some false.
Proof.
  destruct (send_reply_settle tagged "s1" "hello" (mkSendEnv 4 5 "m1" 6 7) _
              (mkReply (Some "hi") None None true false) "m2" 8 9 10
              eq_refl eq_refl)
    as (s3 & imgs & H1 & _ & H2 & _).
  - intros m [].
  - discriminate.
  - exists s3. split; assumption.
Defined.

(** X8. A failed request appends one model message, the fixed apology,
    without image and not yet typed, to the session, and leaves the context,
    the flags, the tags, the title and [loading] of the session as they
    were. *)
Theorem failed_reply_keeps_meta st sid s nid t1 t2 t3 :
  find (has_id sid) (sessions st) = Some s ->
  exists s',
    find (has_id sid) (sessions (onReply st sid None nid t1 t2 t3)) = Some s' /\
    messages s' =
      messages s ++
        [{| m_id := nid; role := model; content := FALLBACK; images := [];
            animated := None; typed := Some false; m_createdAt := t1 |}] /\
    prev_context s' = prev_context s /\
    was_context_valid_old s' = was_context_valid_old s /\
    is_follow_up_old s' = is_follow_up_old s /\
    related_images s' = related_images s /\
    title s' = title s /\ loading s' = loading s.
Proof.
  intros Hs. unfold onReply. cbn [reducer]. unfold addModelMessage.
  eexists. split.
  - apply find_with_session; [exact Hs | reflexivity].
  - simpl. auto 10.
Qed.

Lemma failed_reply_keeps_meta_witness :
  exists s',
    find (has_id "s1") (sessions (onReply waiting "s1" None "m1" 3 4 5))
      = Some s' /\
    loading s' = Some true.
Proof.
  destruct (failed_reply_keeps_meta waiting "s1" _ "m1" 3 4 5 eq_refl)
    as (s' & H1 & _ & _ & _ & _ & _ & _ & H2).
  exists s'. split; [exact H1 | exact H2].
Defined.

Lemma in_messages_images (ms : list ChatMessage) img :
  In img (List.concat (map images ms)) ->
  exists m, In m ms /\ In img (images m).
Proof.
  intros H. apply in_concat in H as (l & Hl & Hi).
  apply in_map_iff in Hl as (m & <- & Hm). eauto.
Qed.

(** X9. The images attached to the user message of a send: each has a
    non-empty path, this path is a tagged id, and the image is an image of a
    message of the session; their paths are the tagged ids that resolve,
    in the order of the tags, so there are at most as many as tags. *)
Theorem userImages_sound session :
  Forall (fun img =>
            path img <> "" /\ In (path img) (related_images session) /\
            exists m, In m (messages session) /\ In img (images m))
    (userImages session) /\
  map path (userImages session) =
    filter (fun p => truthy_str p &&
                     match first_image (messages session) p with
                     | Some _ => true
                     | None => false
                     end)
      (related_images session) /\
  (List.length (userImages session) <= List.length (related_images session))%nat.
Proof.
  rewrite userImages_resolved. unfold resolved.
  generalize (related_images session) as tags. intros tags.
  assert (Hmap :
    map path
      (flat_map (fun p => match first_image (messages session) p with
                          | Some img => if truthy_str p then [img] else []
                          | None => []
                          end) tags) =
    filter (fun p => truthy_str p &&
                     match first_image (messages session) p with
                     | Some _ => true
                     | None => false
                     end) tags).
  { induction tags as [|p tags IH]; simpl; auto.
    destruct (first_image (messages session) p) as [img|] eqn:F.
    - destruct (truthy_str p); simpl; rewrite IH; auto.
      now rewrite (first_image_path _ _ _ F).
    - rewrite andb_false_r. exact IH. }
  split; [|split].
  - apply Forall_forall. intros img Hin.
    apply in_flat_map in Hin as (p & Hp & Hin).
    destruct (first_image (messages session) p) as [i|] eqn:F; [|easy].
    destruct (truthy_str p) eqn:T; [|easy].
    destruct Hin as [->|[]].
    pose proof (first_image_path _ _ _ F) as E.
    split; [|split].
    + rewrite E. unfold truthy_str in T.
      destruct (String.eqb_spec p ""); [discriminate | assumption].
    + now rewrite E.
    + unfold first_image in F. apply find_some in F as [F _].
      now apply in_messages_images.
  - exact Hmap.
  - rewrite <- (length_map path), Hmap. apply filter_length_le.
Qed.

End ChatAppMore.

(** ** Further properties of the reveal scheduler *)

Module TypingMore.
Import Store Typing TypingStates TypingFacts.

Section Events.

Variable m : ChatMessage.
Variable sessionId : string.

Local Abbreviation handle_all := (fold_left (handle m sessionId)).

Lemma prefix_substring n s : prefix (substring 0 n s) s = true.
Proof.
  revert n. induction s as [|a s IH]; intros [|n]; simpl; auto.
  rewrite IH. now destruct (ascii_dec a a).
Qed.

Lemma prefix_refl s : prefix s s = true.
Proof.
  induction s as [|a s IH]; simpl; auto. now destruct (ascii_dec a a).
Qed.

Lemma step_cursor_ok time r h :
  cursor_ok m h -> rafRef h = true -> cursor_ok m (step m time r h).
Proof.
  intros (Ht & Hr & Hb) Hraf. specialize (Hr Hraf). unfold step, cursor_ok.
  destruct (Qle_bool _ _);
    match goal with
    | |- context [(?i <? ?n)%nat] => destruct (Nat.ltb_spec i n)
    end; cbn [typedText charIndex rafRef]; repeat split; auto; try lia;
    try (symmetry; apply substring_all; lia); try discriminate.
Qed.

Lemma handle_cursor_ok h e : cursor_ok m h -> cursor_ok m (handle m sessionId h e).
Proof.
  intros H. destruct e; simpl.
  - destruct (rafRef h) eqn:E; auto using step_cursor_ok.
  - destruct (settleTimers h); auto. unfold onSettleTimeout. simpl.
    destruct (0 <? _)%nat; [exact H|]. destruct (negb _); exact H.
  - destruct (gridRendered m h); auto. unfold onAnimationComplete.
    destruct (_ && _); exact H.
  - destruct H as (Ht & Hr & Hb). unfold cursor_ok. simpl.
    repeat split; auto. discriminate.
Qed.

Lemma handle_all_cursor_ok es : forall h,
  cursor_ok m h -> cursor_ok m (handle_all es h).
Proof.
  induction es as [|e es IH]; intros h H; simpl; auto using handle_cursor_ok.
Qed.

Lemma handle_all_typed_content es : forall h,
  rafRef h = false -> typedText h = content m ->
  typedText (handle_all es h) = content m.
Proof.
  induction es as [|e es IH]; intros h Hr Ht; simpl; auto.
  apply IH.
  - destruct e; simpl; try now rewrite ?Hr.
    + destruct (settleTimers h); auto. unfold onSettleTimeout. simpl.
      destruct (0 <? _)%nat; auto. destruct (negb _); auto.
    + destruct (gridRendered m h); auto. unfold onAnimationComplete.
      destruct (_ && _); auto.
  - destruct e; simpl; try now rewrite ?Hr.
    + destruct (settleTimers h); auto. unfold onSettleTimeout. simpl.
      destruct (0 <? _)%nat; auto. destruct (negb _); auto.
    + destruct (gridRendered m h); auto. unfold onAnimationComplete.
      destruct (_ && _); auto.
Qed.

(** X10. Whatever events reach a mounted bubble, in whatever order, the
    text it shows is a prefix of the content of its message. For a message
    under reveal it is exactly the first [charIndex] characters, and the
    cursor never passes the end of the content (it reaches 1 on an empty
    content). *)
Theorem typed_text_is_prefix now es :
  let h := handle_all es (effect m now (init m)) in
  prefix (typedText h) (content m) = true /\
  (isNew m = true ->
   typedText h = substring 0 (charIndex h) (content m) /\
   (charIndex h <= Nat.max 1 (String.length (content m)))%nat).
Proof.
  intros h. destruct (isNew m) eqn:N.
  - assert (H : cursor_ok m h).
    { apply handle_all_cursor_ok. unfold effect. rewrite N. simpl.
      unfold cursor_ok. cbn [typedText charIndex rafRef].
      split; [now destruct (content m)|]. split; [auto | lia]. }
    destruct H as (Ht & _ & Hb). split; [|auto].
    rewrite Ht. apply prefix_substring.
  - split; [|discriminate].
    unfold h. rewrite handle_all_typed_content; [apply prefix_refl | |];
      unfold effect; rewrite N; reflexivity.
Qed.

End Events.

Lemma typed_text_is_prefix_witness :
  typedText
    (fold_left (handle hi_message "s1")
       [Frame 20 (1 # 2); Frame 40 (1 # 2); Cleanup; Frame 60 (1 # 2)]
       (effect hi_message 0 (init hi_message)))
  = "Hi".
Proof.
  etransitivity.
  - exact (proj1 (proj2 (typed_text_is_prefix hi_message "s1" 0
                           [Frame 20 (1 # 2); Frame 40 (1 # 2); Cleanup;
                            Frame 60 (1 # 2)]) eq_refl)).
  - reflexivity.
Defined.

Section Lifecycle.

Variable m : ChatMessage.
Variable sessionId : string.

(** Nothing scheduled, nothing sent, the whole content shown. *)
Lemma at_rest_kept e h :
  isNew m = false -> at_rest m h -> at_rest m (handle m sessionId h e).
Proof.
  intros N (Hr & Ht & Hd & Hs & Hx). destruct e; simpl.
  - rewrite Hr. unfold at_rest. auto.
  - rewrite Ht. unfold at_rest. auto.
  - unfold gridRendered, onAnimationComplete.
    unfold isNew in N.
    destruct (isUser m); simpl in *.
    + rewrite !andb_false_r. simpl. unfold at_rest. auto.
    + rewrite negb_false_iff in N. rewrite N. simpl.
      rewrite !andb_false_r. simpl.
      destruct (_ && _); unfold at_rest; auto.
  - unfold at_rest. simpl. auto.
Qed.

Lemma at_rest_all es : forall h,
  isNew m = false -> at_rest m h ->
  at_rest m (fold_left (handle m sessionId) es h).
Proof.
  induction es as [|e es IH]; intros h N H; simpl; auto.
  apply IH; auto using at_rest_kept.
Qed.

(** X11. For a message that is not under reveal when its bubble mounts (a
    user message, or a model message already typed), [useTyping] gives the
    whole content at once, and neither the hook nor the completion callback
    of the image grid ever requests a frame, sets the 300 ms timer,
    dispatches [markMessageTyped] or calls [scrollIntoView], whatever events
    reach them. (The [useAutoScroll] of the bubble is another hook and is
    not concerned.) *)
Theorem settled_message_is_inert now es :
  isNew m = false ->
  let h := fold_left (handle m sessionId) es (effect m now (init m)) in
  typedText h = content m /\ dispatched h = [] /\ scrolls h = 0%nat /\
  rafRef h = false /\ settleTimers h = 0%nat.
Proof.
  intros N h.
  assert (H : at_rest m h).
  { apply at_rest_all; auto.
    unfold effect. rewrite N. unfold at_rest. simpl. auto. }
  destruct H as (Hr & Ht & Hd & Hs & Hx). auto.
Qed.

(** While the loop of a message under reveal runs, nothing has been sent,
    the typing is not complete and no timer is set. *)
Lemma frames_from_in_loop clock n : forall k h,
  in_loop h -> in_loop (frames_from m sessionId clock k n h).
Proof.
  induction n as [|n IH]; intros k h H; simpl; auto.
  apply IH. destruct H as (Hd & Hs & Hf & Hr). simpl.
  destruct (rafRef h) eqn:E; [|unfold in_loop; rewrite E; auto].
  destruct (Hr eq_refl) as [Hc Ht]. unfold step, in_loop.
  destruct (_ <? _)%nat; simpl; repeat split; auto; discriminate.
Qed.

Lemma effect_in_loop now : isNew m = true -> in_loop (effect m now (init m)).
Proof.
  intros N. unfold effect. rewrite N. unfold in_loop. simpl. auto.
Qed.

(** X12. Unmounting the bubble of a message under reveal while the frame
    loop runs stops the reveal for good: whatever events follow, the state
    of the hook stays as the cleanup left it, and nothing has been or will
    be dispatched. *)
Theorem unmount_during_reveal now clock n es :
  isNew m = true ->
  rafRef (reveal m sessionId now clock n) = true ->
  let h := handle m sessionId (reveal m sessionId now clock n) Cleanup in
  fold_left (handle m sessionId) es h = h /\ dispatched h = [] /\
  scrolls h = 0%nat.
Proof.
  intros N Hraf h.
  destruct (frames_from_in_loop clock n 0 _ (effect_in_loop now N))
    as (Hd & Hs & Hf & Hr).
  fold (reveal m sessionId now clock n) in Hd, Hs, Hf, Hr.
  destruct (Hr Hraf) as [Hc Ht].
  split; [|split; [exact Hd | exact Hs]].
  assert (Hstep : forall e, handle m sessionId h e = h).
  { intros e. destruct e; simpl.
    - reflexivity.
    - rewrite Ht. reflexivity.
    - unfold gridRendered. simpl. rewrite Hc. simpl.
      unfold isNew in N. destruct (isUser m); [discriminate|]. simpl.
      reflexivity.
    - reflexivity. }
  induction es as [|e es IH]; simpl; auto. now rewrite Hstep.
Qed.

(** The cursor moves by at most one character in a frame, and when the
    loop has ended it has reached the end of the content. *)
Lemma frames_from_cursor clock n : forall k h,
  (rafRef h = false -> (String.length (content m) <= charIndex h)%nat) ->
  (charIndex (frames_from m sessionId clock k n h) <= charIndex h + n)%nat /\
  (rafRef (frames_from m sessionId clock k n h) = false ->
   (String.length (content m)
    <= charIndex (frames_from m sessionId clock k n h))%nat).
Proof.
  induction n as [|n IH]; intros k h H; simpl.
  - split; [lia | exact H].
  - set (h' := if rafRef h
               then step m (fst (clock k)) (snd (clock k)) h else h).
    assert (H' : (charIndex h' <= S (charIndex h))%nat /\
                 (rafRef h' = false ->
                  (String.length (content m) <= charIndex h')%nat)).
    { unfold h'. destruct (rafRef h) eqn:E;
        [|split; [lia | intros _; apply H; reflexivity]].
      unfold step. destruct (Qle_bool _ _);
        match goal with
        | |- context [(?i <? ?l)%nat] => destruct (Nat.ltb_spec i l)
        end; simpl; split; try lia; try discriminate; auto. }
    destruct H' as [Hc Hf]. destruct (IH (S k) h' Hf) as [I1 I2].
    split; [lia | exact I2].
Qed.

(** X13. The reveal of a message takes at least as many frames as the
    content has characters, and at least one, whatever the clock and the
    random values: the cursor moves by at most one character in a frame. *)
Theorem reveal_needs_frames now clock n :
  isNew m = true ->
  (charIndex (reveal m sessionId now clock n) <= n)%nat /\
  (rafRef (reveal m sessionId now clock n) = false ->
   (String.length (content m) <= n)%nat /\ (1 <= n)%nat).
Proof.
  intros N. unfold reveal.
  assert (H0 : rafRef (effect m now (init m)) = false ->
               (String.length (content m)
                <= charIndex (effect m now (init m)))%nat).
  { unfold effect. rewrite N. simpl. discriminate. }
  destruct (frames_from_cursor clock n 0 _ H0) as [H1 H2].
  assert (Hc0 : charIndex (effect m now (init m)) = 0%nat).
  { unfold effect. rewrite N. reflexivity. }
  rewrite Hc0 in H1. split; [exact H1|].
  intros Hr. split; [specialize (H2 Hr); lia|].
  destruct n; [|lia]. simpl in Hr. unfold effect in Hr. rewrite N in Hr.
  discriminate.
Qed.

(** X14. The cleanup of the effect does not clear the 300 ms timer: when
    the bubble of a message without image is unmounted after the loop has
    ended and before the timer fires, the timer still dispatches
    [markMessageTyped] for the message. *)
Theorem unmount_during_settle_delay h atBottom :
  finished m h -> images m = [] ->
  let h' := handle m sessionId (handle m sessionId h Cleanup)
              (SettleTimeout atBottom) in
  dispatched h' = [MarkMessageTyped sessionId (m_id m)] /\
  settleTimers h' = 0%nat.
Proof.
  intros (Hraf & Htext & _ & Htimer & Hflag & Hdisp) Himg. simpl.
  rewrite Htimer. unfold onSettleTimeout. rewrite Himg. simpl.
  rewrite Hflag, Hdisp, Htimer. simpl. auto.
Qed.

(** X15. For a message with images, under reveal, with non-empty session
    and message ids: when the timer fires after the loop has ended, the
    images are shown and nothing is dispatched; the completion of their
    animation then dispatches [markMessageTyped] once and asks for a
    scroll; no later event dispatches again. *)
Theorem images_settle_once h atBottom es :
  isNew m = true -> images m <> [] ->
  truthy_str sessionId = true -> truthy_str (m_id m) = true ->
  finished m h ->
  let h1 := handle m sessionId h (SettleTimeout atBottom) in
  let h2 := handle m sessionId h1 AnimationComplete in
  let h3 := fold_left (handle m sessionId) es h2 in
  showImages h1 = true /\ dispatched h1 = [] /\
  dispatched h2 = [MarkMessageTyped sessionId (m_id m)] /\
  scrolls h2 = S (scrolls h) /\
  dispatched h3 = [MarkMessageTyped sessionId (m_id m)].
Proof.
  intros N Himg Hsid Hmid (Hraf & Htext & Hcomp & Htimer & Hflag & Hdisp).
  assert (Hlen : (0 <? List.length (images m))%nat = true).
  { destruct (images m); [contradiction | reflexivity]. }
  assert (Htyped : truthy (typed m) = false /\ isUser m = false).
  { unfold isNew in N. apply andb_true_iff in N as [N1 N2].
    rewrite negb_true_iff in N1, N2. auto. }
  destruct Htyped as [Htyped Huser].
  assert (E1 : handle m sessionId h (SettleTimeout atBottom) =
               mkHook (typedText h) (isTypingComplete h) true (charIndex h)
                 (prevTime h) (rafRef h) 0 (dispatchedMarkRef h)
                 (dispatched h) (scrolls h)).
  { simpl. rewrite Htimer. unfold onSettleTimeout. rewrite Hlen. simpl.
    now rewrite Htimer. }
  cbv zeta. rewrite E1.
  assert (E2 : handle m sessionId
                 (mkHook (typedText h) (isTypingComplete h) true (charIndex h)
                    (prevTime h) (rafRef h) 0 (dispatchedMarkRef h)
                    (dispatched h) (scrolls h)) AnimationComplete =
               mkHook (typedText h) (isTypingComplete h) true (charIndex h)
                 (prevTime h) (rafRef h) 0 true
                 [MarkMessageTyped sessionId (m_id m)] (S (scrolls h))).
  { simpl. unfold gridRendered. simpl.
    rewrite Hcomp, Hlen, Huser. simpl.
    unfold onAnimationComplete. simpl.
    rewrite Hflag, Htyped, Hsid, Hmid, Hdisp. reflexivity. }
  rewrite E2. simpl. repeat split; auto.
  destruct (settled_stays m sessionId
              (mkHook (typedText h) (isTypingComplete h) true (charIndex h)
                 (prevTime h) (rafRef h) 0 true
                 [MarkMessageTyped sessionId (m_id m)] (S (scrolls h)))
              es eq_refl Hraf) as [H1 _].
  exact H1.
Qed.

End Lifecycle.

Lemma settled_message_is_inert_witness :
  dispatched
    (fold_left (handle user_message "s1")
       [Frame 20 (1 # 2); SettleTimeout true; AnimationComplete]
       (effect user_message 0 (init user_message))) = [].
Proof.
  exact (proj1 (proj2 (settled_message_is_inert user_message "s1" 0
                         [Frame 20 (1 # 2); SettleTimeout true;
                          AnimationComplete] eq_refl))).
Defined.

Lemma unmount_during_reveal_witness :
  dispatched
    (handle hi_message "s1" (reveal hi_message "s1" 0 steady_clock 1) Cleanup)
  = [].
Proof.
  exact (proj1 (proj2 (unmount_during_reveal hi_message "s1" 0 steady_clock 1
                         [] eq_refl eq_refl))).
Defined.

Lemma reveal_needs_frames_witness :
  (String.length (content hi_message) <= 3)%nat.
Proof.
  exact (proj1 (proj2 (reveal_needs_frames hi_message "s1" 0 steady_clock 3
                         eq_refl) eq_refl)).
Defined.

Lemma finished_hi :
  finished hi_message (reveal hi_message "s1" 0 steady_clock 3).
Proof. unfold finished. vm_compute. auto 10. Qed.

Lemma unmount_during_settle_delay_witness :
  dispatched
    (handle hi_message "s1"
       (handle hi_message "s1" (reveal hi_message "s1" 0 steady_clock 3)
          Cleanup)
       (SettleTimeout false))
  = [MarkMessageTyped "s1" "m1"].
Proof.
  exact (proj1 (unmount_during_settle_delay hi_message "s1" _ false
                  finished_hi eq_refl)).
Defined.

Lemma finished_pic :
  finished pic_message (reveal pic_message "s1" 0 steady_clock 1).
Proof. unfold finished. vm_compute. auto 10. Qed.

Lemma images_settle_once_witness :
  dispatched
    (handle pic_message "s1"
       (handle pic_message "s1" (reveal pic_message "s1" 0 steady_clock 1)
          (SettleTimeout true))
       AnimationComplete)
  = [MarkMessageTyped "s1" "m2"].
Proof.
  refine (proj1 (proj2 (proj2 (images_settle_once pic_message "s1" _ true []
                                 eq_refl _ eq_refl eq_refl finished_pic)))).
  discriminate.
Defined.

End TypingMore.

(** ** Further properties of the auto-follow controller *)

Module AutoScrollMore.
Import Scroll AutoScroll AutoScrollFacts.

Lemma clearTimeout_le t l :
  (List.length (clearTimeout t l) <= List.length l)%nat.
Proof.
  destruct t; simpl; [apply filter_length_le | lia].
Qed.

Lemma fired_shrinks id l :
  existsb (Pos.eqb id) l = true ->
  (S (List.length (filter (fun x => negb (Pos.eqb x id)) l))
   <= List.length l)%nat.
Proof.
  induction l as [|x r IH]; simpl; [discriminate|].
  rewrite (Pos.eqb_sym x id).
  destruct (Pos.eqb id x); simpl.
  - intros _. pose proof (filter_length_le (fun y => negb (Pos.eqb y id)) r).
    lia.
  - intros H. specialize (IH H). lia.
Qed.

Lemma onTimer_scrolled target s :
  (List.length (scrolled (onTimer target s))
   <= S (List.length (scrolled s)))%nat.
Proof.
  unfold onTimer. destruct (enabledRef s); [|lia].
  destruct (scrollIntoView target); simpl; [|lia].
  rewrite length_app. simpl. lia.
Qed.

Lemma handle_budget s e :
  (List.length (scrolled (handle s e)) + List.length (pending (handle s e))
   <= List.length (scrolled s) + List.length (pending s)
      + match e with Resize => 1 | _ => 0 end)%nat.
Proof.
  destruct e; simpl.
  - lia.
  - destruct (observing s); [|lia]. unfold onResize.
    destruct (enabledRef s); simpl; [|lia].
    rewrite length_app. simpl.
    pose proof (clearTimeout_le (timeout s) (pending s)). lia.
  - destruct (existsb (Pos.eqb id) (pending s)) eqn:E; [|lia].
    pose proof (fired_shrinks id _ E) as H1.
    match goal with
    | |- context [onTimer target ?x] =>
        pose proof (onTimer_scrolled target x) as H2;
        destruct (onTimer_pending target x) as (H3 & _)
    end.
    rewrite H3. simpl in *. lia.
  - pose proof (clearTimeout_le (timeout s) (pending s)). lia.
Qed.

(** X16. Debouncing: over any sequence of events, the scroll commands
    issued plus the timers still pending are at most as many as the
    size-change notifications received; a scroll command is never issued
    without a notification behind it. *)
Theorem scrolls_bounded_by_resizes enabled es :
  let s := run (mount enabled) es in
  (List.length (scrolled s) + List.length (pending s)
   <= List.length
        (filter (fun e => match e with Resize => true | _ => false end) es))%nat.
Proof.
  intros s. unfold s, run.
  assert (H : forall s0,
            (List.length (scrolled (fold_left handle es s0))
             + List.length (pending (fold_left handle es s0))
             <= List.length (scrolled s0) + List.length (pending s0)
                + List.length
                    (filter (fun e => match e with Resize => true | _ => false end)
                       es))%nat).
  { induction es as [|e es IH]; intros s0; simpl; [lia|].
    specialize (IH (handle s0 e)). pose proof (handle_budget s0 e) as Hb.
    destruct e; simpl in *; lia. }
  specialize (H (mount enabled)). simpl in H. exact H.
Qed.

Lemma handle_scrolled_origin s e top :
  In top (scrolled (handle s e)) ->
  In top (scrolled s) \/
  exists id el, e = Fire id (Some el) /\ top = scrollHeight el /\
                (clientHeight el < scrollHeight el)%Z.
Proof.
  destruct e; simpl; auto.
  - destruct (observing s); auto. unfold onResize.
    destruct (enabledRef s); simpl; auto.
  - destruct (existsb _ _); auto. unfold onTimer. simpl.
    destruct (enabledRef s); simpl; auto.
    destruct target as [el|]; simpl; auto.
    destruct (Z.leb_spec (scrollHeight el) (clientHeight el)) as [Hle|Hlt];
      simpl; auto.
    intros Hin. apply in_app_or in Hin as [Hin|[<-|[]]]; auto.
    right. exists id, el. auto.
Qed.

(** X17. Every scroll command the hook issues comes from a timer that
    fired on a container whose content overflows it, and moves it to the
    bottom of that content: a container without overflow is never
    scrolled. *)
Theorem scrolls_only_on_overflow enabled es :
  Forall (fun top =>
            exists id el, In (Fire id (Some el)) es /\
                          top = scrollHeight el /\
                          (clientHeight el < scrollHeight el)%Z)
    (scrolled (run (mount enabled) es)).
Proof.
  apply Forall_forall. intros top. unfold run.
  assert (H : forall s0, In top (scrolled (fold_left handle es s0)) ->
            In top (scrolled s0) \/
            exists id el, In (Fire id (Some el)) es /\
                          top = scrollHeight el /\
                          (clientHeight el < scrollHeight el)%Z).
  { induction es as [|e es IH]; intros s0 Hin; simpl in *; auto.
    destruct (IH _ Hin) as [H|(id & el & H1 & H2)].
    - destruct (handle_scrolled_origin s0 e top H) as [H'|(id & el & -> & H')];
        auto. right. exists id, el. auto.
    - right. exists id, el. auto. }
  intros Hin. destruct (H _ Hin) as [[]|H']. exact H'.
Qed.

(** X18. After the cleanup of the effect the hook is silent: the pending
    timer has been cleared, and whatever events follow, no timer is set and
    no scroll command is issued any more. *)
Theorem unmount_silences enabled es es' :
  let s := handle (run (mount enabled) es) Unmount in
  pending s = [] /\
  scrolled (run s es') = scrolled s /\
  pending (run s es') = [].
Proof.
  intros s.
  assert (Hp : pending s = []).
  { unfold s. simpl. apply clearTimeout_inv. apply run_inv, mount_inv. }
  assert (Ho : observing s = false) by reflexivity.
  split; [exact Hp|]. unfold run. clearbody s.
  revert s Hp Ho. induction es' as [|e es' IH]; intros s Hp Ho; simpl; auto.
  assert (H : observing (handle s e) = false /\ pending (handle s e) = [] /\
              scrolled (handle s e) = scrolled s).
  { destruct e; simpl; rewrite ?Ho, ?Hp; simpl; auto.
    destruct (timeout s); auto. }
  destruct H as (Ho' & Hp' & Hs'). rewrite <- Hs'. now apply IH.
Qed.

End AutoScrollMore.

(** ** Properties of the effects of [Sidebar] and [ChatWindow] *)

Module ComponentFacts.
Import Store Props Examples StoreFacts Sidebar ChatWindow.

Lemma add_In a id seen : In a (add id seen) <-> a = id \/ In a seen.
Proof.
  unfold add. destruct (mem id seen) eqn:E.
  - apply mem_In in E. split; [auto | intros [->|]; auto].
  - rewrite in_app_iff. simpl. intuition.
Qed.

Lemma fold_add_In ids : forall seen a,
  In a (fold_left (fun acc id => add id acc) ids seen) <->
  In a ids \/ In a seen.
Proof.
  induction ids as [|i ids IH]; intros seen a; simpl; [tauto|].
  rewrite IH, add_In. intuition.
Qed.

Lemma newIds_spec seen sessions id :
  In id (newIds seen sessions) <->
  exists s, In s sessions /\ s_id s = id /\ truthy (new s) = true /\
            ~ In id seen.
Proof.
  unfold newIds. rewrite in_map_iff. split.
  - intros (s & <- & Hs). apply filter_In in Hs as [Hs Hc].
    apply andb_true_iff in Hc as [Hn Hm].
    rewrite negb_true_iff in Hm. apply mem_false in Hm. eauto.
  - intros (s & Hs & <- & Hn & Hm). exists s. split; auto.
    apply filter_In. split; auto. rewrite Hn. simpl.
    apply negb_true_iff. now apply mem_false.
Qed.

Lemma effect_ids seen sessions :
  snd (effect seen sessions) = newIds seen sessions /\
  forall a, In a (fst (effect seen sessions)) <->
            In a (newIds seen sessions) \/ In a seen.
Proof.
  unfold effect. destruct (newIds seen sessions) as [|i ids] eqn:E; simpl.
  - split; [reflexivity | tauto].
  - split; [reflexivity|]. intros a.
    rewrite fold_add_In, add_In. simpl. intuition.
Qed.

(** X19. The effect of the sidebar acknowledges a session id at most once
    over its runs: the ids of a run are ids of new sessions that were not
    seen before; they are seen afterwards, like those seen before; and a
    later run, on whatever sessions, gives none of them again. *)
Theorem sidebar_acknowledges_once seen sessions1 sessions2 :
  let seen1 := fst (effect seen sessions1) in
  let ids1 := snd (effect seen sessions1) in
  let ids2 := snd (effect seen1 sessions2) in
  (forall id, In id ids1 <->
     exists s, In s sessions1 /\ s_id s = id /\ truthy (new s) = true /\
               ~ In id seen) /\
  (forall id, In id seen \/ In id ids1 -> In id seen1) /\
  (forall id, In id ids1 -> ~ In id ids2) /\
  snd (effect seen1 sessions1) = [].
Proof.
  intros seen1 ids1 ids2.
  destruct (effect_ids seen sessions1) as [E1 S1].
  destruct (effect_ids seen1 sessions2) as [E2 _].
  fold ids1 in E1. fold seen1 in S1. fold ids2 in E2.
  split; [|split; [|split]].
  - intros id. rewrite E1. apply newIds_spec.
  - intros id H. apply S1. rewrite <- E1. tauto.
  - intros id H1 H2. rewrite E2 in H2.
    apply newIds_spec in H2 as (_ & _ & _ & _ & Hn).
    apply Hn, S1. rewrite <- E1. now left.
  - destruct (effect_ids seen1 sessions1) as [E3 _]. rewrite E3.
    destruct (newIds seen1 sessions1) as [|i l] eqn:E; auto.
    assert (Hi : In i (newIds seen1 sessions1)) by (rewrite E; now left).
    apply newIds_spec in Hi as (s & Hs & Hid & Hn & Hseen).
    exfalso. apply Hseen, S1.
    destruct (in_dec string_dec i seen) as [|Hni]; auto.
    left. apply newIds_spec. eauto.
Qed.

Lemma Forall2_same_in {A : Type} (R : A -> A -> Prop) l :
  (forall x, In x l -> R x x) -> Forall2 R l l.
Proof.
  induction l as [|x r IH]; intros H; constructor.
  - apply H. now left.
  - apply IH. intros y Hy. apply H. now right.
Qed.

Lemma with_session_sessions st sid f :
  sessions (with_session st sid f) = update_first (has_id sid) f (sessions st)
  /\ activeSessionId (with_session st sid f) = activeSessionId st.
Proof.
  unfold with_session.
  destruct (find (has_id sid) (sessions st)) eqn:E; simpl; auto.
  now rewrite find_none_update_first.
Qed.

Lemma update_first_unique id f l :
  NoDup (map s_id l) ->
  Forall2 (fun s s' => (s_id s = id -> s' = f s) /\ (s_id s <> id -> s' = s))
    l (update_first (has_id id) f l).
Proof.
  induction l as [|x r IH]; simpl; intros Hnd; [constructor|].
  inversion Hnd as [|? ? Hx Hr]; subst.
  unfold has_id at 1. destruct (String.eqb_spec (s_id x) id) as [E|E].
  - constructor; [split; [auto | contradiction]|].
    apply Forall2_same_in. intros y Hy. split; auto.
    intros Ey. exfalso. apply Hx. rewrite E, <- Ey. now apply in_map.
  - constructor; [split; [contradiction | auto] | auto].
Qed.

Lemma updateStatusAll_rel ids : forall st k now,
  NoDup (map s_id (sessions st)) ->
  Forall2 (fun s s' =>
             s_id s' = s_id s /\ messages s' = messages s /\
             (In (s_id s) ids -> new s' = Some false) /\
             (~ In (s_id s) ids -> s' = s))
    (sessions st) (sessions (updateStatusAll st ids k now)) /\
  activeSessionId (updateStatusAll st ids k now) = activeSessionId st.
Proof.
  induction ids as [|i ids IH]; intros st k now Hnd; simpl.
  - split; auto. apply Forall2_refl. tauto.
  - unfold setSessionStatus.
    set (f := fun s => set_updatedAt (now k) (set_new (Some false) s)).
    destruct (with_session_sessions st i f) as [Es Ea].
    assert (Hnd1 : NoDup (map s_id (sessions (with_session st i f)))).
    { rewrite Es, update_first_ids; auto. }
    destruct (IH (with_session st i f) (S k) now Hnd1) as [IH1 IH2].
    split; [|congruence].
    pose proof (update_first_unique i f _ Hnd) as H1. rewrite <- Es in H1.
    revert IH1.
    generalize (sessions (updateStatusAll (with_session st i f) ids (S k) now)).
    revert H1.
    generalize (sessions (with_session st i f)).
    generalize (sessions st). clear.
    intros l0 l1 H01.
    induction H01 as [|a b l0 l1 [Ha Hb] _ IHl]; intros l2 H12;
      inversion H12 as [|? c ? l2' (I1 & I2 & I3 & I4) H12']; subst;
      constructor; [|apply IHl; assumption].
    destruct (string_dec (s_id a) i) as [E|E].
    + rewrite (Ha E) in *. simpl in *.
      split; [exact I1|]. split; [exact I2|]. split.
      * intros _. destruct (in_dec string_dec (s_id a) ids) as [Hin|Hin];
          [auto | rewrite (I4 Hin); reflexivity].
      * intros Hn. exfalso. apply Hn. now left.
    + rewrite (Hb E) in *.
      split; [exact I1|]. split; [exact I2|]. split.
      * intros [Hi|Hi]; [congruence | auto].
      * intros Hn. apply I4. intros Hi. apply Hn. now right.
Qed.

(** X20. In a store whose sessions have distinct ids, after the frame
    callback the sidebar requested, no session is new any more apart from
    those seen earlier (whose acknowledgement is already under way); the
    sessions keep their ids, their order and their messages, those the
    callback does not name are untouched, and the active id is unchanged. *)
Theorem sidebar_acknowledgement st seen k now :
  NoDup (map s_id (sessions st)) ->
  let ids := snd (effect seen (sessions st)) in
  let st' := updateStatusAll st ids k now in
  Forall (fun s' => truthy (new s') = true -> In (s_id s') seen)
    (sessions st') /\
  Forall2 (fun s s' =>
             s_id s' = s_id s /\ messages s' = messages s /\
             (~ In (s_id s) ids -> s' = s))
    (sessions st) (sessions st') /\
  activeSessionId st' = activeSessionId st.
Proof.
  intros Hnd ids st'.
  destruct (updateStatusAll_rel ids st k now Hnd) as [HF Ha].
  fold st' in HF, Ha.
  destruct (effect_ids seen (sessions st)) as [Eids _]. fold ids in Eids.
  split; [|split; [|exact Ha]].
  - apply Forall_forall. intros s' Hs' Hnew.
    assert (H : forall l l', Forall2 (fun s s0 =>
                 s_id s0 = s_id s /\ messages s0 = messages s /\
                 (In (s_id s) ids -> new s0 = Some false) /\
                 (~ In (s_id s) ids -> s0 = s)) l l' ->
               In s' l' -> exists s, In s l /\ (In (s_id s) ids ->
                 new s' = Some false) /\ (~ In (s_id s) ids -> s' = s)).
    { clear. induction 1 as [|a b l l' (_ & _ & H3 & H4) _ IH]; simpl; [easy|].
      intros [<-|Hin]; [exists a; auto|].
      destruct (IH Hin) as (s & Hs & H). exists s. auto. }
    destruct (H _ _ HF Hs') as (s & Hs & H3 & H4).
    destruct (in_dec string_dec (s_id s) ids) as [Hin|Hin].
    + rewrite (H3 Hin) in Hnew. discriminate.
    + rewrite (H4 Hin) in *.
      destruct (in_dec string_dec (s_id s) seen) as [|Hseen]; auto.
      exfalso. apply Hin. rewrite Eids. apply newIds_spec. eauto.
  - revert HF. generalize (sessions st'), (sessions st). clear.
    intros l' l HF.
    induction HF as [|a b l l' (H1 & H2 & _ & H4) _ IH]; constructor; auto.
Qed.

Lemma sidebar_acknowledgement_witness :
  Forall (fun s' => truthy (new s') = true -> In (s_id s') [])
    (sessions (updateStatusAll abc (snd (effect [] (sessions abc))) 0
                 (fun k => Z.of_nat k))).
Proof.
  refine (proj1 (sidebar_acknowledgement abc [] 0 (fun k => Z.of_nat k) _)).
  repeat constructor; simpl; intuition discriminate.
Defined.

(** *** The effect of [ChatWindow] *)

Lemma update_first_msgs_map i g l :
  NoDup (map m_id l) ->
  update_first (msg_has_id i) g l =
    map (fun m => if m_id m =? i then g m else m) l.
Proof.
  induction l as [|x r IH]; simpl; intros Hnd; auto.
  inversion Hnd as [|? ? Hx Hr]; subst.
  unfold msg_has_id at 1. destruct (String.eqb_spec (m_id x) i) as [E|E].
  - f_equal. rewrite <- (map_id r) at 1. apply map_ext_in.
    intros m Hm. destruct (String.eqb_spec (m_id m) i); auto.
    exfalso. apply Hx. rewrite E. replace i with (m_id m) by assumption.
    now apply in_map.
  - f_equal. auto.
Qed.

Lemma run_marks sid ids : forall st s,
  find (has_id sid) (sessions st) = Some s ->
  NoDup (map m_id (messages s)) ->
  exists s',
    find (has_id sid) (sessions (run st (map (MarkMessageTyped sid) ids)))
      = Some s' /\
    messages s' =
      map (fun m => if mem (m_id m) ids then set_typed (Some true) m else m)
        (messages s) /\
    (ids <> [] -> loading s' = Some false) /\
    (ids = [] -> s' = s).
Proof.
  induction ids as [|i ids IH]; intros st s Hs Hnd; simpl.
  - exists s. split; [exact Hs|]. split; [now rewrite map_id|].
    split; [intros H; now contradiction H | reflexivity].
  - set (f := fun s0 : Session =>
                set_loading (Some false)
                  (set_messages
                     (update_first (msg_has_id i) (set_typed (Some true))
                        (messages s0)) s0)).
    assert (H1 : find (has_id sid) (sessions (markMessageTyped st sid i))
                 = Some (f s)).
    { apply find_with_session; [exact Hs | reflexivity]. }
    assert (Em : messages (f s) =
                 map (fun m => if m_id m =? i
                               then set_typed (Some true) m else m)
                   (messages s)).
    { simpl. now apply update_first_msgs_map. }
    assert (Hnd1 : NoDup (map m_id (messages (f s)))).
    { rewrite Em, map_map.
      erewrite map_ext; [exact Hnd|].
      intros m. now destruct (m_id m =? i). }
    destruct (IH _ _ H1 Hnd1) as (s' & F & M & L & _).
    exists s'. split; [exact F|]. split; [|split; [|discriminate]].
    + rewrite M, Em, map_map. apply map_ext. intros m.
      rewrite (String.eqb_sym i (m_id m)).
      destruct (m_id m =? i) eqn:E; simpl; [|reflexivity].
      now destruct (mem (m_id m) ids).
    + intros _. destruct ids as [|j ids'].
      * simpl in F. rewrite H1 in F. injection F as <-. reflexivity.
      * apply L. discriminate.
Qed.

Lemma onSessionChange_map session :
  onSessionChange session =
    map (MarkMessageTyped (s_id session))
      (map m_id (filter untyped_model (messages session))).
Proof.
  unfold onSessionChange.
  induction (messages session) as [|m r IH]; simpl; auto.
  destruct (untyped_model m); simpl; now rewrite IH.
Qed.

Lemma NoDup_map_eq {A B : Type} (f : A -> B) l x y :
  NoDup (map f l) -> In x l -> In y l -> f x = f y -> x = y.
Proof.
  induction l as [|a r IH]; simpl; [easy|]. intros Hnd Hx Hy E.
  inversion Hnd as [|? ? Ha Hr]; subst.
  destruct Hx as [->|Hx], Hy as [->|Hy]; auto.
  - exfalso. apply Ha. rewrite E. now apply in_map.
  - exfalso. apply Ha. rewrite <- E. now apply in_map.
Qed.

(** X21. When the window of a session is mounted on the session of the
    store, whose messages have distinct ids, the dispatches of its effect
    leave every model message of the session typed, each message otherwise
    as it was; if there was a message to mark, [loading] of the session is
    cleared as well, and if there was none the session is untouched. *)
Theorem session_change_marks_all st session :
  find (has_id (s_id session)) (sessions st) = Some session ->
  NoDup (map m_id (messages session)) ->
  exists s',
    find (has_id (s_id session)) (sessions (run st (onSessionChange session)))
      = Some s' /\
    messages s' =
      map (fun m => if untyped_model m then set_typed (Some true) m else m)
        (messages session) /\
    Forall (fun m' => untyped_model m' = false) (messages s') /\
    (onSessionChange session <> [] -> loading s' = Some false) /\
    (onSessionChange session = [] -> s' = session).
Proof.
  intros Hs Hnd. rewrite onSessionChange_map.
  destruct (run_marks (s_id session)
              (map m_id (filter untyped_model (messages session)))
              st session Hs Hnd) as (s' & F & M & L & U).
  assert (M' : messages s' =
               map (fun m => if untyped_model m
                             then set_typed (Some true) m else m)
                 (messages session)).
  { rewrite M. apply map_ext_in. intros m Hm.
    destruct (untyped_model m) eqn:E.
    - assert (H : mem (m_id m)
                    (map m_id (filter untyped_model (messages session)))
                  = true).
      { apply mem_In, in_map, filter_In. auto. }
      now rewrite H.
    - destruct (mem (m_id m) _) eqn:H; auto.
      apply mem_In, in_map_iff in H as (m0 & E0 & H0).
      apply filter_In in H0 as [H0 U0].
      rewrite (NoDup_map_eq m_id _ m0 m Hnd H0 Hm E0) in U0. congruence. }
  exists s'. split; [exact F|]. split; [exact M'|]. split; [|split].
  - rewrite M'. apply Forall_forall. intros m' Hm'.
    apply in_map_iff in Hm' as (m & <- & _).
    destruct (untyped_model m) eqn:E; auto.
    unfold untyped_model. simpl. now destruct (role m).
  - intros H. apply L. intros E. apply H. now rewrite E.
  - intros H. apply U.
    destruct (map m_id (filter untyped_model (messages session)));
      [reflexivity | discriminate H].
Qed.

Lemma session_change_marks_all_witness :
  exists s',
    find (has_id "s1")
      (sessions
         (run replied
            (onSessionChange
               (mkSession "s1" "New Chat" DEFAULT_GREETING true true []
                  [mkMessage "m1" user "hello" [] (Some false) None 2;
                   mkMessage "m2" model "hi" [] None (Some false) 4]
                  1 5 None (Some true))))) = Some s' /\
    Forall (fun m' => untyped_model m' = false) (messages s').
Proof.
  destruct (session_change_marks_all replied
              (mkSession "s1" "New Chat" DEFAULT_GREETING true true []
                 [mkMessage "m1" user "hello" [] (Some false) None 2;
                  mkMessage "m2" model "hi" [] None (Some false) 4]
                 1 5 None (Some true)) eq_refl)
    as (s' & H1 & _ & H2 & _).
  - repeat constructor; simpl; intuition discriminate.
  - exists s'. split; assumption.
Defined.

End ComponentFacts.

(** ** Properties of [preprocessMarkdown] and of [handleSend] *)

Module MarkdownFacts.
Import Markdown.

Local Open Scope string_scope.

Lemma trimEnd_last s c : last_char (trimEnd s) = Some c -> is_space c = false.
Proof.
  induction s as [|a r IH]; simpl; [discriminate|].
  destruct (trimEnd r) as [|b r'] eqn:E.
  - destruct (is_space a) eqn:Sa; simpl; [discriminate|]. now intros [= <-].
  - simpl. destruct r'; exact IH.
Qed.

Lemma trimEnd_no_triple s : forall j,
  no_triple j s = true -> no_triple j (trimEnd s) = true.
Proof.
  induction s as [|a r IH]; intros j H; simpl in *; auto.
  destruct (Ascii.eqb a "010") eqn:Ea.
  - apply andb_true_iff in H as [H1 H2]. specialize (IH _ H2).
    destruct (trimEnd r) as [|b r'].
    + destruct (is_space a); simpl; auto. now rewrite Ea, H1.
    + simpl. rewrite Ea, H1. exact IH.
  - specialize (IH _ H). destruct (trimEnd r) as [|b r'].
    + destruct (is_space a); simpl; auto. now rewrite Ea.
    + simpl. rewrite Ea. exact IH.
Qed.

Lemma newlines_S k : newlines (S k) = String "010" (newlines k).
Proof.
  unfold newlines. simpl. destruct (repeat _ k) eqn:E; simpl.
  - reflexivity.
  - reflexivity.
Qed.

Lemma no_triple_newlines n : forall j s,
  (j + n < 3)%nat ->
  no_triple j (newlines n ++ s) = no_triple (j + n) s.
Proof.
  induction n as [|n IH]; intros j s H.
  - simpl. now rewrite Nat.add_0_r.
  - rewrite newlines_S. simpl.
    assert (E : (S j <? 3)%nat = true) by (apply Nat.ltb_lt; lia).
    rewrite E. simpl. rewrite IH by lia. f_equal. lia.
Qed.

Lemma str_app_nil (s : string) : s ++ "" = s.
Proof. induction s as [|a r IH]; simpl; [|rewrite IH]; reflexivity. Qed.

Lemma emitted_small k : ((if (3 <=? k)%nat then 2 else k) < 3)%nat.
Proof. destruct (Nat.leb_spec 3 k); lia. Qed.

Lemma collapse_no_triple s : forall k, no_triple 0 (collapse k s) = true.
Proof.
  induction s as [|a r IH]; intros k; simpl.
  - rewrite <- (str_app_nil (newlines _)).
    rewrite no_triple_newlines by apply emitted_small. reflexivity.
  - destruct (Ascii.eqb a "010") eqn:Ea; [apply IH|].
    rewrite no_triple_newlines by apply emitted_small.
    simpl. rewrite Ea. apply IH.
Qed.

(** X22. The text [preprocessMarkdown] returns never holds three line
    feeds in a row and never ends with a white space character, whatever
    the input. *)
Theorem preprocess_shape text :
  no_triple 0 (preprocessMarkdown text) = true /\
  forall c, last_char (preprocessMarkdown text) = Some c -> is_space c = false.
Proof.
  unfold preprocessMarkdown. split.
  - apply trimEnd_no_triple, collapse_no_triple.
  - intros c. apply trimEnd_last.
Qed.

(** *** White space *)

Lemma trimStart_all_space s : all_space s = true -> trimStart s = "".
Proof.
  induction s as [|a r IH]; simpl; auto.
  intros H. apply andb_true_iff in H as [Ha Hr]. rewrite Ha. auto.
Qed.

Lemma trimEnd_all_space s : all_space s = true -> trimEnd s = "".
Proof.
  induction s as [|a r IH]; simpl; auto.
  intros H. apply andb_true_iff in H as [Ha Hr]. now rewrite IH, Ha.
Qed.

Lemma all_space_app s t :
  all_space (s ++ t) = all_space s && all_space t.
Proof.
  induction s as [|a r IH]; simpl; auto. now rewrite IH, andb_assoc.
Qed.

Lemma all_space_newlines n : all_space (newlines n) = true.
Proof.
  induction n as [|n IH]; [reflexivity|]. rewrite newlines_S. simpl. exact IH.
Qed.

Lemma is_space_newline a : Ascii.eqb a "010" = true -> is_space a = true.
Proof.
  intros H. apply Ascii.eqb_eq in H. now subst.
Qed.

Lemma split_lines_all_space s :
  all_space s = true -> Forall (fun l => all_space l = true) (split_lines s).
Proof.
  induction s as [s IH] using (well_founded_induction
    (well_founded_ltof _ String.length)).
  destruct s as [|a r]; simpl; [repeat constructor|].
  intros H. apply andb_true_iff in H as [Ha Hr].
  destruct (Ascii.eqb a "010").
  - constructor; [reflexivity|]. apply IH; [unfold ltof; simpl; lia | exact Hr].
  - destruct r as [|d r']; [repeat constructor; simpl; now rewrite Ha|].
    destruct (Ascii.eqb a "013" && Ascii.eqb d "010").
    + constructor; [reflexivity|]. simpl in Hr.
      apply andb_true_iff in Hr as [_ Hr].
      apply IH; [unfold ltof; simpl; lia | exact Hr].
    + assert (H : Forall (fun l => all_space l = true)
                    (split_lines (String d r'))).
      { apply IH; [unfold ltof; simpl; lia | exact Hr]. }
      destruct (split_lines (String d r')) as [|l ls].
      * repeat constructor. simpl. now rewrite Ha.
      * inversion H; subst. constructor; auto. simpl. now rewrite Ha.
Qed.

Lemma scan_all_space lines : forall mode,
  Forall (fun l => all_space l = true) lines ->
  Forall (fun l => all_space l = true) (scan mode lines).
Proof.
  induction lines as [|line rest IH]; intros mode H; simpl.
  - destruct mode; repeat constructor.
  - inversion H as [|? ? Hl Hr]; subst.
    assert (Hn : Forall (fun l => all_space l = true)
                   (if is_fence line then line :: scan Code rest
                    else if is_blank line then "" :: scan Normal rest
                    else if is_list line then line :: scan ListBlock rest
                    else line :: "" :: scan Normal rest)).
    { destruct (is_fence line); [constructor; auto|].
      destruct (is_blank line); [constructor; auto|].
      destruct (is_list line); repeat constructor; auto. }
    destruct mode.
    + exact Hn.
    + constructor; auto.
    + destruct (is_blank line || is_list line); constructor; auto.
Qed.

Lemma concat_all_space lines :
  Forall (fun l => all_space l = true) lines ->
  all_space (String.concat (String "010" "") lines) = true.
Proof.
  induction 1 as [|l ls Hl _ IH]; simpl; auto.
  destruct ls as [|l' ls']; auto.
  rewrite all_space_app, Hl. simpl. exact IH.
Qed.

Lemma collapse_all_space s : forall k,
  all_space s = true -> all_space (collapse k s) = true.
Proof.
  induction s as [|a r IH]; intros k H; simpl.
  - apply all_space_newlines.
  - simpl in H. apply andb_true_iff in H as [Ha Hr].
    destruct (Ascii.eqb a "010"); auto.
    rewrite all_space_app, all_space_newlines. simpl. rewrite Ha. simpl.
    now apply IH.
Qed.

(** X23. A text made of white space only (the empty text, blank lines)
    gives the empty text. *)
Theorem preprocess_blank text :
  all_space text = true -> preprocessMarkdown text = "".
Proof.
  intros H. unfold preprocessMarkdown.
  apply trimEnd_all_space, collapse_all_space, concat_all_space,
    scan_all_space, split_lines_all_space, H.
Qed.

Lemma preprocess_blank_witness :
  preprocessMarkdown (String " " (String "010" (String "009" ""))) = "".
Proof.
  apply preprocess_blank. reflexivity.
Defined.

(** *** The pass over the lines *)

Lemma trimEnd_nonempty a r : is_space a = false -> trimEnd (String a r) <> "".
Proof.
  intros H. simpl. destruct (trimEnd r); [rewrite H|]; discriminate.
Qed.

Lemma fence_not_blank line : is_fence line = true -> is_blank line = false.
Proof.
  unfold is_fence, is_blank. destruct (trim line); simpl; [discriminate|auto].
Qed.

(** X24. The pass over the lines neither drops, nor adds, nor reorders,
    nor alters a line with content: the lines pushed to [out] that are not
    blank are the lines of the text that are not blank, in the same
    order. *)
Theorem scan_keeps_content lines :
  filter (fun l => negb (is_blank l)) (scan Normal lines)
  = filter (fun l => negb (is_blank l)) lines.
Proof.
  assert (H : forall mode,
            filter (fun l => negb (is_blank l)) (scan mode lines)
            = filter (fun l => negb (is_blank l)) lines).
  { induction lines as [|line rest IH]; intros mode.
    - destruct mode; reflexivity.
    - assert (Hn : filter (fun l => negb (is_blank l))
                     (if is_fence line then line :: scan Code rest
                      else if is_blank line then "" :: scan Normal rest
                      else if is_list line then line :: scan ListBlock rest
                      else line :: "" :: scan Normal rest)
                   = filter (fun l => negb (is_blank l)) (line :: rest)).
      { destruct (is_fence line) eqn:F.
        - simpl. now rewrite IH.
        - destruct (is_blank line) eqn:B.
          + simpl. rewrite B. simpl. apply IH.
          + destruct (is_list line); simpl; rewrite B; simpl; now rewrite IH. }
      destruct mode.
      + exact Hn.
      + simpl. now rewrite IH.
      + cbn [scan]. destruct (is_blank line || is_list line).
        * simpl. now rewrite IH.
        * cbn [filter]. exact Hn. }
  apply H.
Qed.

Lemma scan_code_closed body close rest :
  Forall (fun l => is_fence l = false) body -> is_fence close = true ->
  scan Code (body ++ close :: rest)%list
  = (body ++ close :: scan Normal rest)%list.
Proof.
  intros Hb Hc. induction Hb as [|l ls Hl _ IH]; simpl.
  - now rewrite Hc.
  - now rewrite Hl, IH.
Qed.

Lemma scan_code_open body :
  Forall (fun l => is_fence l = false) body -> scan Code body = body.
Proof.
  induction 1 as [|l ls Hl _ IH]; simpl; auto. now rewrite Hl, IH.
Qed.

(** X25. A fenced block is copied to [out] as it is: after a line that
    opens a fence, the lines up to the next fence line and that line are
    pushed unchanged, blank lines included, with nothing inserted, and the
    pass goes on after them; without a closing fence the rest of the text is
    pushed unchanged. *)
Theorem scan_fenced_block open body :
  is_fence open = true ->
  Forall (fun l => is_fence l = false) body ->
  (forall close rest, is_fence close = true ->
     scan Normal (open :: body ++ close :: rest)%list
     = (open :: body ++ close :: scan Normal rest)%list) /\
  scan Normal (open :: body) = open :: body.
Proof.
  intros Ho Hb. split.
  - intros close rest Hc. cbn [scan]. rewrite Ho.
    now rewrite scan_code_closed.
  - cbn [scan]. rewrite Ho. now rewrite scan_code_open.
Qed.

Lemma scan_fenced_block_witness :
  scan Normal ["```"; "a"; ""; ""; "b"; "```"; "x"]
  = ["```"; "a"; ""; ""; "b"; "```"; "x"; ""].
Proof.
  refine (proj1 (scan_fenced_block "```" ["a"; ""; ""; "b"] eq_refl _)
            "```" ["x"] eq_refl).
  repeat constructor.
Defined.

(** *** The text sent *)

Lemma trimStart_decomp s :
  exists pre, s = pre ++ trimStart s /\ all_space pre = true.
Proof.
  induction s as [|a r (pre & E & H)]; simpl.
  - exists "". auto.
  - destruct (is_space a) eqn:Sa.
    + exists (String a pre). simpl. rewrite Sa, H. split; [now f_equal | auto].
    + exists "". auto.
Qed.

Lemma trimEnd_decomp s :
  exists post, s = trimEnd s ++ post /\ all_space post = true.
Proof.
  induction s as [|a r (post & E & H)]; simpl.
  - exists "". auto.
  - destruct (trimEnd r) as [|b r'] eqn:T.
    + simpl in E. subst r. destruct (is_space a) eqn:Sa.
      * exists (String a post). simpl. now rewrite Sa, H.
      * exists post. auto.
    + exists post. split; [|exact H]. simpl. f_equal. exact E.
Qed.

Lemma trimStart_head s : starts_with_space (trimStart s) = false.
Proof.
  induction s as [|a r IH]; simpl; auto.
  destruct (is_space a) eqn:Sa; simpl; auto.
Qed.

Lemma trimEnd_head s :
  starts_with_space s = false -> starts_with_space (trimEnd s) = false.
Proof.
  destruct s as [|a r]; simpl; auto. intros Sa.
  destruct (trimEnd r); [rewrite Sa|]; simpl; auto.
Qed.

Lemma trimEnd_empty s : trimEnd s = "" -> all_space s = true.
Proof.
  induction s as [|a r IH]; simpl; auto.
  destruct (trimEnd r); [|discriminate].
  destruct (is_space a); [auto | discriminate].
Qed.

Lemma trim_empty s : trim s = "" <-> all_space s = true.
Proof.
  unfold trim. split.
  - intros H. apply trimEnd_empty in H.
    destruct (trimStart_decomp s) as (pre & E & Hp).
    rewrite E, all_space_app, Hp, H. reflexivity.
  - intros H. now rewrite trimStart_all_space.
Qed.

(** X26. [handleSend] sends nothing exactly when the input is made of
    white space only. Otherwise the text it sends is the input without the
    white space at its two ends: it is not empty, it neither starts nor ends
    with a white space character, and the input is this text between two
    runs of white space. *)
Theorem handleSend_trims input :
  (handleSend input = None <-> all_space input = true) /\
  forall t, handleSend input = Some t ->
    t <> "" /\ starts_with_space t = false /\
    (forall c, last_char t = Some c -> is_space c = false) /\
    exists pre post,
      input = pre ++ t ++ post /\
      all_space pre = true /\ all_space post = true.
Proof.
  unfold handleSend. split.
  - rewrite <- trim_empty.
    destruct (String.eqb_spec (trim input) ""); split; congruence.
  - intros t. destruct (String.eqb_spec (trim input) "") as [|Hne];
      [discriminate|]. intros [= <-].
    split; [exact Hne|]. split; [|split].
    + apply trimEnd_head, trimStart_head.
    + intros c. apply trimEnd_last.
    + destruct (trimStart_decomp input) as (pre & E1 & H1).
      destruct (trimEnd_decomp (trimStart input)) as (post & E2 & H2).
      exists pre, post. unfold trim. rewrite <- E2. auto.
Qed.

Lemma handleSend_trims_witness :
  handleSend "  hi there " <> None /\
  forall c, last_char "hi there" = Some c -> is_space c = false.
Proof.
  destruct (handleSend_trims "  hi there ") as [H1 H2]. split.
  - intros H. apply H1 in H. discriminate H.
  - apply (H2 "hi there" eq_refl).
Defined.

End MarkdownFacts.
